(** * ChatConnect: conversation and real-time delivery core

    A shallow embedding of [server/storage.ts] (class [DatabaseStorage]),
    of the table declarations of the shared schema and of the request and
    WebSocket handlers of [server/routes.ts], followed by the properties
    of the direct-conversation resolver, message history, soft deletion,
    group creation, presence and fan-out.

    Tables are lists of rows in heap order.  Nullable columns are
    [option]s, SQL comparisons against NULL are not true and so drop the
    row.  A [string] is a text value as the store holds it, with no NUL
    character.  A query with no ORDER BY is listed in heap order, which
    is one of the orders the store may return its rows in.  A storage
    method is a computation over the database that either returns or
    throws; nothing in the source opens a transaction, so the rows
    written before a throw stay written. *)

From Stdlib Require Import ZArith String Ascii.
From stdpp Require Import base option list gmap strings sorting.

Set Warnings "-clear-no-such-hyp".

Local Open Scope string_scope.
Local Open Scope Z_scope.

(** ** shared/schema.ts *)

Module User.
Record t := mk {
    id : string;
    username : string;
    email : string;
    password : string;
    avatar : option string;
    isOnline : option bool;
    lastSeen : option Z;
    createdAt : option Z }.
End User.

Module Conversation.
Record t := mk {
    id : string;
    name : option string;
    description : option string;
    isGroup : option bool;
    avatar : option string;
    createdBy : option string;
    createdAt : option Z }.
End Conversation.

Module ConversationMember.
Record t := mk {
    id : string;
    conversationId : string;
    userId : string;
    joinedAt : option Z }.
End ConversationMember.

Module Message.
Record t := mk {
    id : string;
    conversationId : string;
    senderId : string;
    content : option string;
    type : option string;
    fileUrl : option string;
    fileName : option string;
    fileSize : option Z;
    replyToId : option string;
    isDeleted : option bool;
    createdAt : option Z }.
End Message.

Module Call.
Record t := mk {
    id : string;
    conversationId : string;
    callerId : string;
    type : string;
    status : option string;
    startedAt : option Z;
    endedAt : option Z }.
End Call.

#[global] Instance User_eq_dec : EqDecision User.t.
Proof. solve_decision. Defined.
#[global] Instance Conversation_eq_dec : EqDecision Conversation.t.
Proof. solve_decision. Defined.
#[global] Instance ConversationMember_eq_dec : EqDecision ConversationMember.t.
Proof. solve_decision. Defined.
#[global] Instance Message_eq_dec : EqDecision Message.t.
Proof. solve_decision. Defined.
#[global] Instance Call_eq_dec : EqDecision Call.t.
Proof. solve_decision. Defined.

(** The insert schemas: the generated columns are omitted, the others are
    optional.  A column with a non-NULL default distinguishes an absent
    key ([None], the default applies) from an explicit null
    ([Some None]). *)

Record InsertUser := {
  iu_username : string;
  iu_email : string;
  iu_password : string;
  iu_avatar : option string }.

Record InsertConversation := {
  ic_name : option string;
  ic_description : option string;
  ic_isGroup : option (option bool);
  ic_avatar : option string;
  ic_createdBy : option string }.

Record InsertMessage := {
  im_conversationId : string;
  im_senderId : string;
  im_content : option string;
  im_type : option (option string);
  im_fileUrl : option string;
  im_fileName : option string;
  im_fileSize : option Z;
  im_replyToId : option string }.

Record InsertCall := {
  icl_conversationId : string;
  icl_callerId : string;
  icl_type : string;
  icl_status : option (option string) }.

Definition column_default {A} (dflt : option A) (v : option (option A)) : option A :=
  match v with
  | None => dflt
  | Some x => x
  end.

(** ** server/db.ts: the database

    [rng] and [drawn] are the state of [gen_random_uuid()]: the n-th call
    returns [rng n].  [now] is the clock read by [now()] and
    [new Date()]. *)

Record Db := {
  users : list User.t;
  conversations : list Conversation.t;
  conversationMembers : list ConversationMember.t;
  messages : list Message.t;
  calls : list Call.t;
  rng : nat → string;
  drawn : nat;
  now : Z }.

Definition set_users (f : list User.t → list User.t) (d : Db) : Db :=
  {| users := f (users d); conversations := conversations d;
     conversationMembers := conversationMembers d; messages := messages d;
     calls := calls d; rng := rng d; drawn := drawn d; now := now d |}.

Definition set_conversations (f : list Conversation.t → list Conversation.t) (d : Db) : Db :=
  {| users := users d; conversations := f (conversations d);
     conversationMembers := conversationMembers d; messages := messages d;
     calls := calls d; rng := rng d; drawn := drawn d; now := now d |}.

Definition set_conversationMembers
    (f : list ConversationMember.t → list ConversationMember.t) (d : Db) : Db :=
  {| users := users d; conversations := conversations d;
     conversationMembers := f (conversationMembers d); messages := messages d;
     calls := calls d; rng := rng d; drawn := drawn d; now := now d |}.

Definition set_messages (f : list Message.t → list Message.t) (d : Db) : Db :=
  {| users := users d; conversations := conversations d;
     conversationMembers := conversationMembers d; messages := f (messages d);
     calls := calls d; rng := rng d; drawn := drawn d; now := now d |}.

Definition set_calls (f : list Call.t → list Call.t) (d : Db) : Db :=
  {| users := users d; conversations := conversations d;
     conversationMembers := conversationMembers d; messages := messages d;
     calls := f (calls d); rng := rng d; drawn := drawn d; now := now d |}.

Definition set_drawn (n : nat) (d : Db) : Db :=
  {| users := users d; conversations := conversations d;
     conversationMembers := conversationMembers d; messages := messages d;
     calls := calls d; rng := rng d; drawn := n; now := now d |}.

(** What a storage call throws: a constraint violation or a value out of
    the range of its column, raised by the store, or the refusal of the
    query builder to write an update that sets no column. *)
Inductive DbError :=
| UniqueViolation
| ForeignKeyViolation
| NumericValueOutOfRange
| NoValuesToSet.

(** A storage method: runs against the database, leaves a database, and
    returns a value or throws. *)
Definition Query (A : Type) : Type := Db → Db * (DbError + A).

Definition qret {A} (a : A) : Query A := λ d, (d, inr a).
Definition throw {A} (e : DbError) : Query A := λ d, (d, inl e).
Definition qbind {A B} (m : Query A) (k : A → Query B) : Query B :=
  λ d, match m d with
       | (d', inr a) => k a d'
       | (d', inl e) => (d', inl e)
       end.
Definition reads {A} (f : Db → A) : Query A := λ d, (d, inr (f d)).
Definition modify (f : Db → Db) : Query unit := λ d, (f d, inr tt).

Declare Scope query_scope.
Delimit Scope query_scope with query.
Notation "x ←? m ; k" := (qbind m (λ x, k))
  (at level 100, m at next level, right associativity) : query_scope.
Notation "m ;; k" := (qbind m (λ _, k))
  (at level 100, right associativity) : query_scope.

(** ** The query builder *)

(** [a.innerJoin(b, on)]: every pair of rows that satisfies [on], the
    rows of [a] in the outer loop. *)
Definition innerJoin {A B} (l : list A) (r : list B) (on : A * B → Prop)
    `{!∀ ab, Decision (on ab)} : list (A * B) :=
  filter on (a ← l; (λ b, (a, b)) <$> r).

(** [q1.intersect(q2)]: the distinct rows of [q1] that [q2] returns too. *)
Definition intersect `{EqDecision A} (l r : list A) : list A :=
  remove_dups (filter (λ x, x ∈ r) l).

(** [.limit(n).offset(k)] renders LIMIT n OFFSET k: [k] rows are skipped,
    then [n] are kept.  Both range over the non-negative integers. *)
Definition limit_offset {A} (n k : nat) (l : list A) : list A :=
  take n (drop k l).

(** Postgres orders NULL above every value, so [desc] puts NULLs first. *)
Definition ts_le (a b : option Z) : Prop :=
  match a, b with
  | _, None => True
  | None, Some _ => False
  | Some x, Some y => x ≤ y
  end.

#[global] Instance ts_le_dec a b : Decision (ts_le a b).
Proof. destruct a, b; simpl; apply _. Defined.

(** [.orderBy(desc(messages.createdAt))] on message/sender rows. *)
Definition newer_first (x y : Message.t * User.t) : Prop :=
  ts_le (Message.createdAt y.1) (Message.createdAt x.1).

#[global] Instance newer_first_dec x y : Decision (newer_first x y).
Proof. unfold newer_first. apply _. Defined.

(** ** server/storage.ts: DatabaseStorage *)

(** The column default [gen_random_uuid()]. *)
Definition gen_random_uuid : Query string :=
  λ d, (set_drawn (S (drawn d)) d, inr (rng d (drawn d))).

Definition getUser (id : string) : Query (option User.t) :=
  reads (λ d, head (filter (λ u, User.id u = id) (users d))).

Definition getUserByUsername (username : string) : Query (option User.t) :=
  reads (λ d, head (filter (λ u, User.username u = username) (users d))).

Definition getUserByEmail (email : string) : Query (option User.t) :=
  reads (λ d, head (filter (λ u, User.email u = email) (users d))).

(** [users] has three unique indexes: the primary key, [username] and
    [email]. *)
Definition createUser (insertUser : InsertUser) : Query User.t :=
  (id ←? gen_random_uuid;
   d ←? reads (λ d, d);
   let user :=
     User.mk id (iu_username insertUser) (iu_email insertUser)
       (iu_password insertUser) (iu_avatar insertUser) (Some false) None
       (Some (now d)) in
   if decide (id ∈ User.id <$> users d
              ∨ iu_username insertUser ∈ User.username <$> users d
              ∨ iu_email insertUser ∈ User.email <$> users d)
   then throw UniqueViolation
   else (modify (set_users (λ l, (l ++ [user])%list));; qret user))%query.

(** [set({ isOnline, lastSeen: isOnline ? undefined : new Date() })]: an
    undefined value leaves its column as it is. *)
Definition set_presence (isOnline : bool) (t : Z) (u : User.t) : User.t :=
  User.mk (User.id u) (User.username u) (User.email u) (User.password u)
    (User.avatar u) (Some isOnline)
    (if isOnline then User.lastSeen u else Some t)
    (User.createdAt u).

Definition updateUserOnlineStatus (id : string) (isOnline : bool) : Query unit :=
  modify (λ d, set_users
    (fmap (λ u, if decide (User.id u = id) then set_presence isOnline (now d) u else u)) d).

Definition getConversation (id : string) : Query (option Conversation.t) :=
  reads (λ d, head (filter (λ c, Conversation.id c = id) (conversations d))).

(** A nullable foreign key is checked only when it is not NULL. *)
Definition references (ids : list string) (fk : option string) : Prop :=
  match fk with
  | None => True
  | Some k => k ∈ ids
  end.

#[global] Instance references_dec ids fk : Decision (references ids fk).
Proof. destruct fk; simpl; apply _. Defined.

Definition createConversation (conversation : InsertConversation) : Query Conversation.t :=
  (id ←? gen_random_uuid;
   d ←? reads (λ d, d);
   let newConversation :=
     Conversation.mk id (ic_name conversation) (ic_description conversation)
       (column_default (Some false) (ic_isGroup conversation))
       (ic_avatar conversation) (ic_createdBy conversation) (Some (now d)) in
   if decide (id ∈ Conversation.id <$> conversations d) then throw UniqueViolation
   else if decide (references (User.id <$> users d) (ic_createdBy conversation)) then
     (modify (set_conversations (λ l, (l ++ [newConversation])%list));;
      qret newConversation)
   else throw ForeignKeyViolation)%query.

(** [.onConflictDoNothing()] skips the row when it collides on a unique
    index; the only one on [conversation_members] is its generated
    primary key.  Foreign keys are checked on the row that is inserted. *)
Definition addConversationMember (conversationId userId : string) : Query unit :=
  (id ←? gen_random_uuid;
   d ←? reads (λ d, d);
   if decide (id ∈ ConversationMember.id <$> conversationMembers d) then qret tt
   else if decide (conversationId ∈ Conversation.id <$> conversations d
                   ∧ userId ∈ User.id <$> users d) then
     modify (set_conversationMembers (λ l,
       (l ++ [ConversationMember.mk id conversationId userId (Some (now d))])%list))
   else throw ForeignKeyViolation)%query.

(** One operand of the intersection: the [conversation] columns of
    [conversations ⋈ conversationMembers] where the conversation is not a
    group and the member is [userId]. *)
Definition directWith (d : Db) (userId : string) : list Conversation.t :=
  fst <$> filter
    (λ r, Conversation.isGroup r.1 = Some false ∧ ConversationMember.userId r.2 = userId)
    (innerJoin (conversations d) (conversationMembers d)
       (λ r, Conversation.id r.1 = ConversationMember.conversationId r.2)).

Definition getOrCreateDirectConversation (user1Id user2Id : string)
    : Query Conversation.t :=
  (existingConversation ←?
     reads (λ d, intersect (directWith d user1Id) (directWith d user2Id));
   match existingConversation with
   | conversation :: _ => qret conversation
   | [] =>
       newConversation ←? createConversation
         {| ic_name := None; ic_description := None;
            ic_isGroup := Some (Some false); ic_avatar := None;
            ic_createdBy := Some user1Id |};
       addConversationMember (Conversation.id newConversation) user1Id;;
       addConversationMember (Conversation.id newConversation) user2Id;;
       qret newConversation
   end)%query.

(** An element of the history: [{ ...message, sender, replyTo }]. *)
Record MessageView := {
  message : Message.t;
  sender : User.t;
  replyTo : option (Message.t * User.t) }.

(** JavaScript truthiness of a nullable string: null and the empty string
    are falsy. *)
Definition truthy (s : option string) : option string :=
  match s with
  | Some k => if decide (k = "") then None else Some k
  | None => None
  end.

Definition messagesWithSender (d : Db) : list (Message.t * User.t) :=
  innerJoin (messages d) (users d) (λ r, Message.senderId r.1 = User.id r.2).

(** [new Map(entries)]: a later entry replaces an earlier one with the
    same key. *)
Definition newMap {V} (entries : list (string * V)) : gmap string V :=
  list_to_map (reverse entries).

Definition getConversationMessages (conversationId : string)
    (limit offset : option nat) : Query (list MessageView) :=
  let limit := default 50%nat limit in
  let offset := default 0%nat offset in
  reads (λ d,
    let messageList :=
      limit_offset limit offset
        (merge_sort newer_first
           (filter (λ r, Message.conversationId r.1 = conversationId
                         ∧ Message.isDeleted r.1 = Some false)
              (messagesWithSender d))) in
    let replyIds := omap (λ r, truthy (Message.replyToId r.1)) messageList in
    let replyMessages :=
      if decide (0 < length replyIds)%nat
      then filter (λ r, Message.id r.1 ∈ replyIds) (messagesWithSender d)
      else [] in
    let replyMap := newMap ((λ r, (Message.id r.1, r)) <$> replyMessages) in
    reverse ((λ r, {| message := r.1; sender := r.2;
                      replyTo := k ← truthy (Message.replyToId r.1); replyMap !! k |})
             <$> messageList)).

(** [file_size] is an [integer] column: a value is read as a 32-bit
    signed integer when the statement is bound, before anything is
    written, and a value out of that range is refused. *)
Definition int4 (v : option Z) : Prop :=
  match v with
  | None => True
  | Some n => -2147483648 ≤ n ≤ 2147483647
  end.

#[global] Instance int4_dec v : Decision (int4 v).
Proof. destruct v; simpl; apply _. Defined.

Definition createMessage (message : InsertMessage)
    : Query (Message.t * option User.t) :=
  if decide (int4 (im_fileSize message)) then
    (id ←? gen_random_uuid;
     d ←? reads (λ d, d);
     let newMessage :=
       Message.mk id (im_conversationId message) (im_senderId message)
         (im_content message) (column_default (Some "text") (im_type message))
         (im_fileUrl message) (im_fileName message) (im_fileSize message)
         (im_replyToId message) (Some false) (Some (now d)) in
     if decide (id ∈ Message.id <$> messages d) then throw UniqueViolation
     else if decide (im_conversationId message ∈ Conversation.id <$> conversations d
                     ∧ im_senderId message ∈ User.id <$> users d) then
       (modify (set_messages (λ l, (l ++ [newMessage])%list));;
        sender ←? getUser (im_senderId message);
        qret (newMessage, sender))
     else throw ForeignKeyViolation)%query
  else throw NumericValueOutOfRange.

Definition set_isDeleted (m : Message.t) : Message.t :=
  Message.mk (Message.id m) (Message.conversationId m) (Message.senderId m)
    (Message.content m) (Message.type m) (Message.fileUrl m) (Message.fileName m)
    (Message.fileSize m) (Message.replyToId m) (Some true) (Message.createdAt m).

Definition deleteMessage (messageId userId : string) : Query bool :=
  (d ←? reads (λ d, d);
   let hit (m : Message.t) := Message.id m = messageId ∧ Message.senderId m = userId in
   let result := set_isDeleted <$> filter hit (messages d) in
   modify (set_messages (fmap (λ m, if decide (hit m) then set_isDeleted m else m)));;
   qret (bool_decide (0 < length result)%nat))%query.

Definition createCall (call : InsertCall) : Query Call.t :=
  (id ←? gen_random_uuid;
   d ←? reads (λ d, d);
   let newCall :=
     Call.mk id (icl_conversationId call) (icl_callerId call) (icl_type call)
       (column_default (Some "pending") (icl_status call)) (Some (now d)) None in
   if decide (id ∈ Call.id <$> calls d) then throw UniqueViolation
   else if decide (icl_conversationId call ∈ Conversation.id <$> conversations d
                   ∧ icl_callerId call ∈ User.id <$> users d) then
     (modify (set_calls (λ l, (l ++ [newCall])%list));; qret newCall)
   else throw ForeignKeyViolation)%query.

Definition set_status (status : string) (endedAt : option Z) (c : Call.t) : Call.t :=
  Call.mk (Call.id c) (Call.conversationId c) (Call.callerId c) (Call.type c)
    (Some status) (Call.startedAt c)
    (match endedAt with Some t => Some t | None => Call.endedAt c end).

(** The route passes [req.body.status] on as it is: [status] is none when
    it is [undefined].  An update whose only value is undefined sets no
    column, and the query builder refuses to write it. *)
Definition updateCallStatus (callId : string) (status : option string) : Query unit :=
  match status with
  | Some status =>
      modify (set_calls
        (fmap (λ c, if decide (Call.id c = callId) then set_status status None c else c)))
  | None => throw NoValuesToSet
  end.

Definition endCall (callId : string) : Query unit :=
  modify (λ d, set_calls
    (fmap (λ c, if decide (Call.id c = callId)
                then set_status "ended" (Some (now d)) c else c)) d).

(** *** ILIKE

    [LIKE] patterns: [%] matches any run of characters, [_] any one
    character, a backslash takes the next pattern character literally.
    [ILIKE] compares characters up to case.  The model is that of ASCII
    text: a character is a byte and case folding is that of the ASCII
    letters.  On other text the store matches whole characters and folds
    case as its locale says. *)
Definition lower (c : ascii) : ascii :=
  let n := nat_of_ascii c in
  if decide (65 ≤ n ≤ 90)%nat then ascii_of_nat (n + 32) else c.

Definition same_letter (a b : ascii) : bool := bool_decide (lower a = lower b).

Fixpoint like (eqc : ascii → ascii → bool) (pattern : string) : string → bool :=
  match pattern with
  | EmptyString => λ s, bool_decide (s = "")
  | String "%" p =>
      fix any (s : string) : bool :=
        like eqc p s
        || match s with
           | EmptyString => false
           | String _ s' => any s'
           end
  | String "_" p =>
      λ s, match s with
           | EmptyString => false
           | String _ s' => like eqc p s'
           end
  | String "\" p =>
      match p with
      | EmptyString => λ _, false
      | String c p' =>
          λ s, match s with
               | EmptyString => false
               | String c' s' => eqc c c' && like eqc p' s'
               end
      end
  | String c p =>
      λ s, match s with
           | EmptyString => false
           | String c' s' => eqc c c' && like eqc p s'
           end
  end.

Definition ilike (s pattern : string) : bool := like same_letter pattern s.

Definition searchUsers (query excludeUserId : string) : Query (list User.t) :=
  reads (λ d,
    take 20
      (filter (λ u, (ilike (User.username u) ("%" ++ query ++ "%")
                     ∨ ilike (User.email u) ("%" ++ query ++ "%"))
                    ∧ User.id u ≠ excludeUserId)
         (users d))).

(** ** server/routes.ts *)

(** The event envelope [{ type, data }] that [JSON.stringify] turns into
    a frame; a frame is identified with the envelope it serialises. *)
Inductive EventData :=
| MessageData (m : Message.t * option User.t)
| MessageIdData (messageId : string)
| CallData (c : Call.t)
| CallStatusData (callId : string) (status : option string).

Record Envelope := {
  type : string;
  data : EventData }.

Inductive ReadyState := CONNECTING | OPEN | CLOSING | CLOSED.

#[global] Instance ReadyState_eq_dec : EqDecision ReadyState.
Proof. solve_decision. Defined.

(** A WebSocket object: its state and the frames [send] was called
    with. *)
Record WebSocket := {
  readyState : ReadyState;
  sent : list Envelope }.

(** The server process: the database, the [connections] map of
    [registerRoutes] (user id to socket) and the socket objects it
    refers to. *)
Record Server := {
  db : Db;
  connections : gmap string nat;
  sockets : gmap nat WebSocket }.

Definition runDb {A} (q : Query A) (s : Server) : Server * (DbError + A) :=
  match q (db s) with
  | (d, r) => ({| db := d; connections := connections s; sockets := sockets s |}, r)
  end.

Definition ws_send (frame : Envelope) (ws : WebSocket) : WebSocket :=
  {| readyState := readyState ws; sent := (sent ws ++ [frame])%list |}.

(** [connections.forEach(ws => { if (ws.readyState === OPEN) ws.send(m) })] *)
Definition deliver (wsMessage : Envelope) (socks : gmap nat WebSocket) (h : nat)
    : gmap nat WebSocket :=
  alter (λ ws, if decide (readyState ws = OPEN) then ws_send wsMessage ws else ws) h socks.

Definition broadcast (wsMessage : Envelope) (s : Server) : Server :=
  {| db := db s; connections := connections s;
     sockets := foldl (deliver wsMessage) (sockets s)
                  (snd <$> map_to_list (connections s)) |}.

Inductive Body :=
| ErrorBody (error : string)
| SuccessBody
| ConversationBody (c : Conversation.t)
| MessagesBody (l : list MessageView)
| MessageBody (m : Message.t * option User.t)
| CallBody (c : Call.t)
| UsersBody (l : list (string * string * string * option string * option bool)).

Record Response := {
  status : nat;
  body : Body }.

Definition Handler : Type := Server → Server * Response.

Definition respond (code : nat) (b : Body) : Handler :=
  λ s, (s, {| status := code; body := b |}).

(** [requireAuth]: [user] is the id of [req.user] when the request is
    authenticated. *)
Definition requireAuth (user : option string) (next : string → Handler) : Handler :=
  match user with
  | None => respond 401 (ErrorBody "Unauthorized")
  | Some id => next id
  end.

Definition tryCatch {A} (q : Query A) (ok : A → Handler) (catch : Handler) : Handler :=
  λ s, match runDb q s with
       | (s', inr a) => ok a s'
       | (s', inl _) => catch s'
       end.

Fixpoint forOf {A} (l : list A) (f : A → Query unit) : Query unit :=
  match l with
  | [] => qret tt
  | x :: l' => (f x;; forOf l' f)%query
  end.

(** Request bodies are taken at the types their schema accepts. *)
Record CreateConversationBody := {
  cb_name : option string;
  cb_description : option string;
  cb_isGroup : option (option bool);
  cb_avatar : option string;
  cb_memberIds : option (list string) }.

(** POST /api/conversations *)
Definition postConversations (user : option string) (reqBody : CreateConversationBody)
    : Handler :=
  requireAuth user (λ userId,
    tryCatch
      (conversation ←? createConversation
         {| ic_name := cb_name reqBody; ic_description := cb_description reqBody;
            ic_isGroup := cb_isGroup reqBody; ic_avatar := cb_avatar reqBody;
            ic_createdBy := Some userId |};
       addConversationMember (Conversation.id conversation) userId;;
       match cb_memberIds reqBody with
       | Some memberIds =>
           forOf memberIds (λ memberId,
             addConversationMember (Conversation.id conversation) memberId)
       | None => qret tt
       end;;
       qret conversation)%query
      (λ conversation, respond 201 (ConversationBody conversation))
      (respond 400 (ErrorBody "Failed to create conversation"))).

(** POST /api/conversations/direct *)
Definition postConversationsDirect (user : option string) (userId : option string)
    : Handler :=
  requireAuth user (λ me,
    match truthy userId with
    | None => respond 400 (ErrorBody "User ID is required")
    | Some other =>
        tryCatch (getOrCreateDirectConversation me other)
          (λ conversation, respond 200 (ConversationBody conversation))
          (respond 500 (ErrorBody "Failed to create direct conversation"))
    end).

Section Builtins.
  (** [parseInt] of JavaScript, on the query strings that denote a
      non-negative integer within the range of a [bigint].  For any other
      string the query builder leaves the clause out or the store refuses
      the value; the route is modelled on the strings named here. *)
Variable parseInt : string → nat.

  (** [q ? parseInt(q) : dflt] on an optional query parameter. *)
Definition queryInt (q : option string) (dflt : nat) : nat :=
    match truthy q with
    | Some v => parseInt v
    | None => dflt
    end.

  (** GET /api/conversations/:id/messages *)
Definition getMessages (user : option string) (id : string)
      (limit offset : option string) : Handler :=
    requireAuth user (λ _,
      tryCatch
        (getConversationMessages id (Some (queryInt limit 50)) (Some (queryInt offset 0)))
        (λ messages, respond 200 (MessagesBody messages))
        (respond 500 (ErrorBody "Failed to fetch messages"))).
End Builtins.

Record SendMessageBody := {
  mb_content : option string;
  mb_type : option (option string);
  mb_fileUrl : option string;
  mb_fileName : option string;
  mb_fileSize : option Z;
  mb_replyToId : option string }.

(** POST /api/conversations/:id/messages *)
Definition postMessage (user : option string) (id : string) (reqBody : SendMessageBody)
    : Handler :=
  requireAuth user (λ userId,
    tryCatch
      (createMessage
         {| im_conversationId := id; im_senderId := userId;
            im_content := mb_content reqBody; im_type := mb_type reqBody;
            im_fileUrl := mb_fileUrl reqBody; im_fileName := mb_fileName reqBody;
            im_fileSize := mb_fileSize reqBody; im_replyToId := mb_replyToId reqBody |})
      (λ message s,
         respond 201 (MessageBody message)
           (broadcast {| type := "new_message"; data := MessageData message |} s))
      (respond 400 (ErrorBody "Failed to send message"))).

(** DELETE /api/messages/:id *)
Definition deleteMessageRoute (user : option string) (id : string) : Handler :=
  requireAuth user (λ userId,
    tryCatch (deleteMessage id userId)
      (λ success s,
         if success
         then respond 200 SuccessBody
                (broadcast {| type := "message_deleted"; data := MessageIdData id |} s)
         else respond 404 (ErrorBody "Message not found or unauthorized") s)
      (respond 500 (ErrorBody "Failed to delete message"))).

Record CreateCallBody := {
  clb_conversationId : string;
  clb_type : string;
  clb_status : option (option string) }.

(** POST /api/calls *)
Definition postCalls (user : option string) (reqBody : CreateCallBody) : Handler :=
  requireAuth user (λ userId,
    tryCatch
      (createCall
         {| icl_conversationId := clb_conversationId reqBody; icl_callerId := userId;
            icl_type := clb_type reqBody; icl_status := clb_status reqBody |})
      (λ call s,
         respond 201 (CallBody call)
           (broadcast {| type := "call_initiated"; data := CallData call |} s))
      (respond 400 (ErrorBody "Failed to initiate call"))).

(** PATCH /api/calls/:id.  [status] is [req.body.status], none when the
    body has no such key; a status that is given is text. *)
Definition patchCall (user : option string) (id : string) (status : option string)
    : Handler :=
  requireAuth user (λ _,
    tryCatch
      (if decide (status = Some "ended") then endCall id else updateCallStatus id status)
      (λ _ s,
         respond 200 SuccessBody
           (broadcast {| type := "call_status_updated";
                         data := CallStatusData id status |} s))
      (respond 500 (ErrorBody "Failed to update call"))).


(** *** The WebSocket server *)

(** [s.split(sep)[1]] for a non-empty separator: what lies between the
    first occurrence of [sep] and the next one, undefined when [sep] does
    not occur. *)
Definition split1 (sep s : string) : option string :=
  match index 0 sep s with
  | None => None
  | Some n =>
      let from := (n + String.length sep)%nat in
      let rest := substring from (String.length s - from) s in
      match index 0 sep rest with
      | None => Some rest
      | Some k => Some (substring 0 k rest)
      end
  end.

(** [req.url?.split('userId=')[1]], kept when truthy. *)
Definition urlUserId (url : option string) : option string :=
  truthy (url ≫= split1 "userId=").

(** [wss.on('connection', (ws, req) => ...)]: [ws] is the new socket.
    The status update is issued by the handler and is taken to complete
    with it. *)
Definition onConnection (ws : nat) (url : option string) (s : Server) : Server :=
  match urlUserId url with
  | Some userId =>
      (runDb (updateUserOnlineStatus userId true)
         {| db := db s; connections := <[userId := ws]> (connections s);
            sockets := sockets s |}).1
  | None => s
  end.

(** [ws.on('close', ...)] of the connection that carried [url]. *)
Definition onClose (url : option string) (s : Server) : Server :=
  match urlUserId url with
  | Some userId =>
      (runDb (updateUserOnlineStatus userId false)
         {| db := db s; connections := delete userId (connections s);
            sockets := sockets s |}).1
  | None => s
  end.

(** ** Vocabulary of the properties *)

(** [userId] has a membership row in the conversation [conversationId]. *)
Definition isMember (d : Db) (conversationId userId : string) : Prop :=
  Exists (λ m, ConversationMember.conversationId m = conversationId
               ∧ ConversationMember.userId m = userId)
    (conversationMembers d).

#[global] Instance isMember_dec d c u : Decision (isMember d c u).
Proof. unfold isMember. apply _. Defined.

(** The direct conversations of the pair: the rows of [conversations]
    that are not groups and have both users as members. *)
Definition directBetween (d : Db) (userA userB : string) : list Conversation.t :=
  filter (λ c, Conversation.isGroup c = Some false
               ∧ isMember d (Conversation.id c) userA
               ∧ isMember d (Conversation.id c) userB)
    (conversations d).

(** Every primary key in use. *)
Definition primaryKeys (d : Db) : list string :=
  ((User.id <$> users d) ++ (Conversation.id <$> conversations d)
   ++ (ConversationMember.id <$> conversationMembers d)
   ++ (Message.id <$> messages d) ++ (Call.id <$> calls d))%list.

(** The next [k] values of [gen_random_uuid()]. *)
Definition upcoming (d : Db) (k : nat) : list string :=
  (λ i, rng d (drawn d + i)%nat) <$> seq 0 k.

(** The next [k] generated ids are new: distinct from one another and
    from every key in use. *)
Definition fresh (d : Db) (k : nat) : Prop :=
  NoDup (upcoming d k) ∧ Forall (λ x, x ∉ primaryKeys d) (upcoming d k).

#[global] Instance fresh_dec d k : Decision (fresh d k).
Proof. unfold fresh. apply _. Defined.

(** How many rows of [directWith d u] are the conversation [c]. *)
Definition mult (d : Db) (u : string) (c : Conversation.t) : nat :=
  length (filter (λ m, Conversation.id c = ConversationMember.conversationId m
                       ∧ Conversation.isGroup c = Some false
                       ∧ ConversationMember.userId m = u)
            (conversationMembers d)).

(** The rows the inserts write when the next generated id is free. *)
Definition conversationRow (d : Db) (c : InsertConversation) : Conversation.t :=
  Conversation.mk (rng d (drawn d)) (ic_name c) (ic_description c)
    (column_default (Some false) (ic_isGroup c)) (ic_avatar c) (ic_createdBy c)
    (Some (now d)).

Definition memberRow (d : Db) (conversationId userId : string) : ConversationMember.t :=
  ConversationMember.mk (rng d (drawn d)) conversationId userId (Some (now d)).

Definition afterDraw (d : Db) : Db := set_drawn (S (drawn d)) d.

(** The row the resolver asks [createConversation] to insert:
    [{ isGroup: false, createdBy: user1Id }]. *)
Definition directInsert (user1Id : string) : InsertConversation :=
  {| ic_name := None; ic_description := None; ic_isGroup := Some (Some false);
     ic_avatar := None; ic_createdBy := Some user1Id |}.

Definition afterCreateConversation (d : Db) (c : InsertConversation) : Db :=
  set_conversations (λ l, (l ++ [conversationRow d c])%list) (afterDraw d).

Definition afterAddMember (d : Db) (conversationId userId : string) : Db :=
  set_conversationMembers
    (λ l, (l ++ [memberRow d conversationId userId])%list) (afterDraw d).

(** The rows a history query ranges over: the message/sender rows of the
    conversation whose soft-delete flag is false. *)
Definition visibleRows (d : Db) (conversationId : string) : list (Message.t * User.t) :=
  filter (λ r, Message.conversationId r.1 = conversationId
               ∧ Message.isDeleted r.1 = Some false)
    (messagesWithSender d).

(** The page a history query selects, newest first. *)
Definition page (d : Db) (conversationId : string) (limit offset : nat)
    : list (Message.t * User.t) :=
  limit_offset limit offset (merge_sort newer_first (visibleRows d conversationId)).

(** The reply targets fetched for a page, keyed by message id. *)
Definition replyMapOf (d : Db) (messageList : list (Message.t * User.t))
    : gmap string (Message.t * User.t) :=
  let replyIds := omap (λ r, truthy (Message.replyToId r.1)) messageList in
  newMap ((λ r, (Message.id r.1, r)) <$>
          (if decide (0 < length replyIds)%nat
           then filter (λ r, Message.id r.1 ∈ replyIds) (messagesWithSender d)
           else [])).

Definition toView (replyMap : gmap string (Message.t * User.t))
    (r : Message.t * User.t) : MessageView :=
  {| message := r.1; sender := r.2;
     replyTo := k ← truthy (Message.replyToId r.1); replyMap !! k |}.

Definition rowOf (v : MessageView) : Message.t * User.t := (message v, sender v).

Definition older_first (v w : MessageView) : Prop :=
  ts_le (Message.createdAt (message v)) (Message.createdAt (message w)).

(** No socket is registered under two user ids: each connection event
    registers the socket it was raised for. *)
Definition distinctSockets (s : Server) : Prop :=
  NoDup ((map_to_list (connections s)).*2).

#[global] Instance distinctSockets_dec s : Decision (distinctSockets s).
Proof. unfold distinctSockets. apply _. Defined.

(** From [s] to [s'], the frame was sent once on every open socket of the
    connections map, whoever its user is, and on no other socket. *)
Definition delivered (frame : Envelope) (s s' : Server) : Prop :=
  connections s' = connections s
  ∧ (∀ userId h ws,
       connections s !! userId = Some h → sockets s !! h = Some ws →
       readyState ws = OPEN →
       sockets s' !! h
       = Some {| readyState := OPEN; sent := (sent ws ++ [frame])%list |})
  ∧ (∀ h ws,
       sockets s !! h = Some ws →
       readyState ws ≠ OPEN ∨ (∀ userId, connections s !! userId ≠ Some h) →
       sockets s' !! h = Some ws)
  ∧ (∀ h, sockets s !! h = None → sockets s' !! h = None).

(** Case-insensitive substring containment, as a property and as a
    test. *)
Fixpoint fold_case (s : string) : string :=
  match s with
  | EmptyString => EmptyString
  | String c s' => String (lower c) (fold_case s')
  end.

Definition ci_substring (q s : string) : Prop :=
  ∃ pre mid post, s = pre ++ mid ++ post ∧ fold_case mid = fold_case q.

Fixpoint ci_prefix (q s : string) : bool :=
  match q, s with
  | EmptyString, _ => true
  | String _ _, EmptyString => false
  | String a q', String b s' => same_letter a b && ci_prefix q' s'
  end.

Fixpoint ci_contains (q s : string) : bool :=
  ci_prefix q s
  || match s with
     | EmptyString => false
     | String _ s' => ci_contains q s'
     end.

(** Text of ASCII characters only: on such text a character is a byte,
    and the letters that ILIKE folds are the ASCII letters. *)
Fixpoint isAscii (s : string) : Prop :=
  match s with
  | EmptyString => True
  | String c s' => (nat_of_ascii c < 128)%nat ∧ isAscii s'
  end.

(** A query in which no character is special in a LIKE pattern. *)
Fixpoint literal (q : string) : Prop :=
  match q with
  | EmptyString => True
  | String c q' => c ≠ "%"%char ∧ c ≠ "_"%char ∧ c ≠ "\"%char ∧ literal q'
  end.

(** ** Sample data *)

Definition sampleUser (id username : string) : User.t :=
  User.mk id username (username ++ "@example.org") "hash" None (Some false) None (Some 0).

Definition sampleIds (n : nat) : string := String "k" (String (ascii_of_nat (48 + n)) "").

(** Three registered users and nothing else. *)
Definition db0 : Db :=
  {| users := [sampleUser "u1" "alice"; sampleUser "u2" "bob"; sampleUser "u3" "abc"];
     conversations := []; conversationMembers := []; messages := []; calls := [];
     rng := sampleIds; drawn := 0; now := 1700000000000 |}.

Definition sampleMessage (id senderId content : string) (replyToId : option string)
    (isDeleted : bool) (createdAt : Z) : Message.t :=
  Message.mk id "c1" senderId (Some content) (Some "text") None None None replyToId
    (Some isDeleted) (Some createdAt).

(** One direct conversation with three messages: the first one is
    soft-deleted and the second one replies to it. *)
Definition deletedMessage : Message.t := sampleMessage "m1" "u1" "first" None true 10.

Definition dbReplies : Db :=
  {| users := [sampleUser "u1" "alice"; sampleUser "u2" "bob"];
     conversations := [Conversation.mk "c1" None None (Some false) None (Some "u1") (Some 5)];
     conversationMembers :=
       [ConversationMember.mk "p1" "c1" "u1" (Some 5);
        ConversationMember.mk "p2" "c1" "u2" (Some 5)];
     messages :=
       [deletedMessage;
        sampleMessage "m2" "u2" "second" (Some "m1") false 20;
        sampleMessage "m3" "u1" "third" None false 30];
     calls := []; rng := sampleIds; drawn := 0; now := 1700000000000 |}.

(** A server with no connection yet, over the three users of [db0]. *)
Definition server0 : Server := {| db := db0; connections := ∅; sockets := ∅ |}.

(** The request of the new-group dialog: a group named Team with three
    requested members, the second of which is not a user. *)
Definition teamRequest : CreateConversationBody :=
  {| cb_name := Some "Team"; cb_description := None; cb_isGroup := Some (Some true);
     cb_avatar := None; cb_memberIds := Some ["u2"; "ghost"; "u3"] |}.

(** Two users connected on open sockets, and a closed socket that is no
    longer registered. *)
Definition serverLive : Server :=
  {| db := dbReplies;
     connections := {[ "u1" := 1%nat; "u2" := 2%nat ]};
     sockets := {[ 1%nat := {| readyState := OPEN; sent := [] |};
                   2%nat := {| readyState := OPEN; sent := [] |};
                   3%nat := {| readyState := CLOSED; sent := [] |} ]} |}.

(** The primary keys of the five tables hold. *)
Definition keysOk (d : Db) : Prop :=
  NoDup (User.id <$> users d)
  ∧ NoDup (Conversation.id <$> conversations d)
  ∧ NoDup (ConversationMember.id <$> conversationMembers d)
  ∧ NoDup (Message.id <$> messages d)
  ∧ NoDup (Call.id <$> calls d).

#[global] Instance keysOk_dec d : Decision (keysOk d).
Proof. unfold keysOk. apply _. Defined.

(** The sample conversation with one pending voice call. *)
Definition serverCall : Server :=
  {| db := set_calls
             (λ _, [Call.mk "call1" "c1" "u1" "voice" (Some "pending") (Some 40) None])
             dbReplies;
     connections := ∅; sockets := ∅ |}.

(** Every message/sender row keyed by message id: what a reply
    reference resolves against. *)
Definition replyTargets (d : Db) : gmap string (Message.t * User.t) :=
  newMap ((λ r, (Message.id r.1, r)) <$> messagesWithSender d).

(** ** The server as a transition system *)

Definition set_now (t : Z) (d : Db) : Db :=
  {| users := users d; conversations := conversations d;
     conversationMembers := conversationMembers d; messages := messages d;
     calls := calls d; rng := rng d; drawn := drawn d; now := t |}.

(** What happens to a running server: a registration (the auth routes
    call [storage.createUser]), the requests that write, the two
    WebSocket events, and the clock moving on. *)
Inductive Event :=
| Register (insertUser : InsertUser)
| PostConversations (user : option string) (reqBody : CreateConversationBody)
| PostConversationsDirect (user : option string) (userId : option string)
| PostMessage (user : option string) (id : string) (reqBody : SendMessageBody)
| DeleteMessage (user : option string) (id : string)
| PostCalls (user : option string) (reqBody : CreateCallBody)
| PatchCall (user : option string) (id : string) (newStatus : option string)
| Connection (ws : nat) (url : option string)
| Close (url : option string)
| Clock (t : Z).

Definition handle (e : Event) (s : Server) : Server :=
  match e with
  | Register insertUser => (runDb (createUser insertUser) s).1
  | PostConversations user reqBody => (postConversations user reqBody s).1
  | PostConversationsDirect user userId => (postConversationsDirect user userId s).1
  | PostMessage user id reqBody => (postMessage user id reqBody s).1
  | DeleteMessage user id => (deleteMessageRoute user id s).1
  | PostCalls user reqBody => (postCalls user reqBody s).1
  | PatchCall user id newStatus => (patchCall user id newStatus s).1
  | Connection ws url => onConnection ws url s
  | Close url => onClose url s
  | Clock t => {| db := set_now t (db s); connections := connections s;
                  sockets := sockets s |}
  end.

(** A connection event is raised for a socket that is not registered
    yet. *)
Definition admissible (e : Event) (s : Server) : Prop :=
  match e with
  | Connection ws _ => ∀ userId, connections s !! userId ≠ Some ws
  | _ => True
  end.

(** A server that has just started on an empty database. *)
Definition serverStart (ids : nat → string) (t : Z) : Server :=
  {| db := {| users := []; conversations := []; conversationMembers := [];
              messages := []; calls := []; rng := ids; drawn := 0; now := t |};
     connections := ∅; sockets := ∅ |}.

(** The states a server can be in: it starts, events happen, and the
    sockets open and change state on their own. *)
Inductive Reachable (ids : nat → string) (t : Z) : Server → Prop :=
| reachable_start : Reachable ids t (serverStart ids t)
| reachable_step s e :
    Reachable ids t s → admissible e s → Reachable ids t (handle e s)
| reachable_socket s h state :
    Reachable ids t s →
    Reachable ids t
      {| db := db s; connections := connections s;
         sockets := <[h := {| readyState := state;
                              sent := default [] (sent <$> sockets s !! h) |}]>
                      (sockets s) |}.

(** The two databases hold the same rows. *)
Definition sameTables (d d' : Db) : Prop :=
  users d' = users d ∧ conversations d' = conversations d
  ∧ conversationMembers d' = conversationMembers d
  ∧ messages d' = messages d ∧ calls d' = calls d.

(** The unique columns of [users] hold. *)
Definition uniqueOk (d : Db) : Prop :=
  NoDup (User.username <$> users d) ∧ NoDup (User.email <$> users d).

(** The foreign keys hold. *)
Definition refsOk (d : Db) : Prop :=
  Forall (λ c, references (User.id <$> users d) (Conversation.createdBy c))
    (conversations d)
  ∧ Forall (λ m, ConversationMember.conversationId m ∈ Conversation.id <$> conversations d
                 ∧ ConversationMember.userId m ∈ User.id <$> users d)
      (conversationMembers d)
  ∧ Forall (λ m, Message.conversationId m ∈ Conversation.id <$> conversations d
                 ∧ Message.senderId m ∈ User.id <$> users d)
      (messages d)
  ∧ Forall (λ c, Call.conversationId c ∈ Conversation.id <$> conversations d
                 ∧ Call.callerId c ∈ User.id <$> users d)
      (calls d).

Definition integrity (d : Db) : Prop := keysOk d ∧ uniqueOk d ∧ refsOk d.

#[global] Instance integrity_dec d : Decision (integrity d).
Proof. unfold integrity, uniqueOk, refsOk. apply _. Defined.

(** Two sockets are open and no connection event has been handled. *)
Definition serverOpen : Server :=
  {| db := db0; connections := ∅;
     sockets := {[ 1%nat := {| readyState := OPEN; sent := [] |};
                   2%nat := {| readyState := OPEN; sent := [] |} ]} |}.

(** A query made of [%] characters only. *)
Fixpoint allPercent (q : string) : Prop :=
  match q with
  | EmptyString => True
  | String c q' => c = "%"%char ∧ allPercent q'
  end.

(** ** server/storage.ts: getUserConversations *)

(** An element of the conversation list:
    [{ ...conversation, members, lastMessage, unreadCount }]. *)
Record ConversationView := {
  conversation : Conversation.t;
  members : list (ConversationMember.t * User.t);
  lastMessage : option (Message.t * User.t);
  unreadCount : Z }.

(** [[...new Set(l)]]: the distinct elements, in order of first
    occurrence. *)
Definition newSet (l : list string) : list string :=
  foldl (λ acc x, if decide (x ∈ acc) then acc else (acc ++ [x])%list) [] l.

(** A [Map] whose iteration order is observed: the entries in insertion
    order. *)
Definition JsMap (V : Type) : Type := list (string * V).

Definition map_has {V} (k : string) (m : JsMap V) : bool := bool_decide (k ∈ m.*1).

Fixpoint map_get {V} (k : string) (m : JsMap V) : option V :=
  match m with
  | [] => None
  | (k', v) :: m' => if decide (k' = k) then Some v else map_get k m'
  end.

(** [set] keeps the position of a key that is present and appends a new
    one. *)
Fixpoint map_set {V} (k : string) (v : V) (m : JsMap V) : JsMap V :=
  match m with
  | [] => [(k, v)]
  | (k', v') :: m' => if decide (k' = k) then (k, v) :: m' else (k', v') :: map_set k v m'
  end.

(** [conv.members.push({ ...member, user })] on the object the map holds
    under the member's conversation id. *)
Definition pushMember (conversationMap : JsMap ConversationView)
    (r : ConversationMember.t * User.t) : JsMap ConversationView :=
  match map_get (ConversationMember.conversationId r.1) conversationMap with
  | Some conv =>
      map_set (ConversationMember.conversationId r.1)
        {| conversation := conversation conv; members := (members conv ++ [r])%list;
           lastMessage := lastMessage conv; unreadCount := unreadCount conv |}
        conversationMap
  | None => conversationMap
  end.

Definition membersWithUser (d : Db) : list (ConversationMember.t * User.t) :=
  innerJoin (conversationMembers d) (users d)
    (λ r, ConversationMember.userId r.1 = User.id r.2).

Section InArray.
  (** [inArray(column, [])]: the query builder throws on an empty list of
      values in its older releases and renders a condition that is false
      in the later ones. *)
Variable inArrayEmptyThrows : bool.

  (** The result is [None] when the promise is rejected. *)
Definition getUserConversations (userId : string) (d : Db)
    : option (list ConversationView) :=
  let userConversations :=
    filter (λ uc, ConversationMember.userId uc.1.1 = userId)
      (innerJoin
         (innerJoin (conversationMembers d) (conversations d)
            (λ r, ConversationMember.conversationId r.1 = Conversation.id r.2))
         (users d)
         (λ r, ConversationMember.userId r.1.1 = User.id r.2)) in
  let conversationIds := newSet ((λ uc, Conversation.id uc.1.2) <$> userConversations) in
  if bool_decide (conversationIds = []) && inArrayEmptyThrows then None else
  let allMembers :=
    filter (λ r, ConversationMember.conversationId r.1 ∈ conversationIds)
      (membersWithUser d) in
  let lastMessages :=
    merge_sort newer_first
      (filter (λ r, Message.conversationId r.1 ∈ conversationIds
                    ∧ Message.isDeleted r.1 = Some false)
         (messagesWithSender d)) in
  let conversationMap : JsMap ConversationView :=
    foldl (λ conversationMap uc,
             if map_has (Conversation.id uc.1.2) conversationMap then conversationMap
             else map_set (Conversation.id uc.1.2)
                    {| conversation := uc.1.2; members := []; lastMessage := None;
                       unreadCount := 0 |} conversationMap)
      [] userConversations in
  let conversationMap := foldl pushMember conversationMap allMembers in
  let lastMessageMap : gmap string (Message.t * User.t) :=
    foldl (λ lastMessageMap r,
             if decide (is_Some (lastMessageMap !! Message.conversationId r.1))
             then lastMessageMap
             else <[Message.conversationId r.1 := r]> lastMessageMap)
      ∅ lastMessages in
  Some ((λ conv, {| conversation := conversation conv; members := members conv;
                    lastMessage := lastMessageMap !! Conversation.id (conversation conv);
                    unreadCount := unreadCount conv |})
        <$> conversationMap.*2).

End InArray.

(** The three queries and the three loops of [getUserConversations]. *)
Definition userConversationRows (d : Db) (userId : string)
    : list (ConversationMember.t * Conversation.t * User.t) :=
  filter (λ uc, ConversationMember.userId uc.1.1 = userId)
    (innerJoin
       (innerJoin (conversationMembers d) (conversations d)
          (λ r, ConversationMember.conversationId r.1 = Conversation.id r.2))
       (users d)
       (λ r, ConversationMember.userId r.1.1 = User.id r.2)).

Definition lastMessageRows (d : Db) (conversationIds : list string)
    : list (Message.t * User.t) :=
  merge_sort newer_first
    (filter (λ r, Message.conversationId r.1 ∈ conversationIds
                  ∧ Message.isDeleted r.1 = Some false)
       (messagesWithSender d)).

Definition initialView (c : Conversation.t) : ConversationView :=
  {| conversation := c; members := []; lastMessage := None; unreadCount := 0 |}.

Definition firstSeen (conversationMap : JsMap ConversationView)
    (uc : ConversationMember.t * Conversation.t * User.t) : JsMap ConversationView :=
  if map_has (Conversation.id uc.1.2) conversationMap then conversationMap
  else map_set (Conversation.id uc.1.2) (initialView uc.1.2) conversationMap.

Definition remember (lastMessageMap : gmap string (Message.t * User.t))
    (r : Message.t * User.t) : gmap string (Message.t * User.t) :=
  if decide (is_Some (lastMessageMap !! Message.conversationId r.1))
  then lastMessageMap
  else <[Message.conversationId r.1 := r]> lastMessageMap.

Definition withLastMessage (lastMessageMap : gmap string (Message.t * User.t))
    (conv : ConversationView) : ConversationView :=
  {| conversation := conversation conv; members := members conv;
     lastMessage := lastMessageMap !! Conversation.id (conversation conv);
     unreadCount := unreadCount conv |}.

(** The entry after the rows of its conversation have been pushed. *)
Definition addMembers (rows : list (ConversationMember.t * User.t))
    (e : string * ConversationView) : string * ConversationView :=
  (e.1, {| conversation := conversation e.2;
           members := (members e.2
                       ++ filter (λ r, ConversationMember.conversationId r.1 = e.1) rows)%list;
           lastMessage := lastMessage e.2; unreadCount := unreadCount e.2 |}).

(** The entry of the sample conversation in a conversation list. *)
Definition sampleConversationView : ConversationView :=
  {| conversation := Conversation.mk "c1" None None (Some false) None (Some "u1") (Some 5);
     members := [(ConversationMember.mk "p1" "c1" "u1" (Some 5), sampleUser "u1" "alice");
                 (ConversationMember.mk "p2" "c1" "u2" (Some 5), sampleUser "u2" "bob")];
     lastMessage := Some (sampleMessage "m3" "u1" "third" None false 30,
                          sampleUser "u1" "alice");
     unreadCount := 0 |}.

(** The registration of a user named carol. *)
Definition carol : InsertUser :=
  {| iu_username := "carol"; iu_email := "carol@example.org"; iu_password := "hash";
     iu_avatar := None |}.

(** client: the path and query of the [wsUrl] that [useWebSocket] opens,
    which the server reads as [req.url].  User ids are generated UUIDs;
    the browser sends such a path as it is written. *)
Definition wsPath (userId : string) : string := "/ws?userId=" ++ userId.

(** ** client: components/chat/new-group-modal.tsx *)

(** [setSelectedMembers(prev => prev.includes(userId)
      ? prev.filter(id => id !== userId) : [...prev, userId])] *)
Definition toggleMember (userId : string) (prev : list string) : list string :=
  if decide (userId ∈ prev) then filter (λ id, id ≠ userId) prev
  else (prev ++ [userId])%list.

Section Trim.
  (** [String.prototype.trim] *)
Variable trim : string → string.

  (** The request that [createGroupMutation.mutate] sends, none when the
      handler returns early. *)
Definition handleCreateGroup (groupName description : string)
    (selectedMembers : list string) : option CreateConversationBody :=
  if decide (trim groupName = "" ∨ length selectedMembers = 0%nat) then None
  else Some {| cb_name := Some groupName; cb_description := Some description;
               cb_isGroup := Some (Some true); cb_avatar := None;
               cb_memberIds := Some selectedMembers |}.
End Trim.

(** The selection after the check boxes of [clicks] have been clicked in
    turn, starting from the empty selection of [useState]. *)
Definition selectionAfter (clicks : list string) : list string :=
  foldl (λ prev userId, toggleMember userId prev) [] clicks.

(** ** client: components/chat/chat-sidebar.tsx *)

(** [user] is the signed-in user of [useAuth], if any. *)
Definition getConversationName (user : option User.t) (conv : ConversationView) : string :=
  if decide (Conversation.isGroup (conversation conv) = Some true) then
    default "Group Chat" (truthy (Conversation.name (conversation conv)))
  else
    let otherMember :=
      head (filter (λ m, Some (User.id m.2) ≠ User.id <$> user) (members conv)) in
    default "Unknown User" (truthy ((λ m, User.username m.2) <$> otherMember)).

(** The sample conversation on a server with one open socket that no
    connection event has been handled for. *)
Definition serverVisitor : Server :=
  {| db := dbReplies; connections := ∅;
     sockets := {[ 1%nat := {| readyState := OPEN; sent := [] |} ]} |}.

(** * Properties *)

Ltac qsimpl :=
  unfold qbind, qret, throw, reads, modify, gen_random_uuid in *; simpl in *.

Lemma elem_of_innerJoin {A B} (l : list A) (r : list B) (on : A * B → Prop)
    `{!∀ ab, Decision (on ab)} a b :
  (a, b) ∈ innerJoin l r on ↔ a ∈ l ∧ b ∈ r ∧ on (a, b).
Proof.
  unfold innerJoin. rewrite list_elem_of_filter, list_elem_of_bind. split.
  - intros [Hon (a' & Hin & Ha')]. apply list_elem_of_fmap in Hin as (b' & Heq & Hb').
    inversion Heq; subst. auto.
  - intros (Ha & Hb & Hon). split; [done|]. exists a. split; [|done].
    apply list_elem_of_fmap. eauto.
Qed.

Lemma isMember_iff d c u :
  isMember d c u ↔
  ∃ m, m ∈ conversationMembers d ∧ ConversationMember.conversationId m = c
       ∧ ConversationMember.userId m = u.
Proof. unfold isMember. rewrite Exists_exists. naive_solver. Qed.

Lemma elem_of_directWith d u c :
  c ∈ directWith d u ↔
  c ∈ conversations d ∧ Conversation.isGroup c = Some false
  ∧ isMember d (Conversation.id c) u.
Proof.
  unfold directWith. rewrite list_elem_of_fmap, isMember_iff. split.
  - intros ([c' m] & -> & Hin). apply list_elem_of_filter in Hin as [[Hg Hu] Hin].
    apply elem_of_innerJoin in Hin as (Hc & Hm & Hon). simpl in *. eauto 10.
  - intros (Hc & Hg & m & Hm & Hcid & Hu). exists (c, m). split; [done|].
    apply list_elem_of_filter. split; [done|]. apply elem_of_innerJoin. auto.
Qed.

Lemma elem_of_intersect `{EqDecision A} (l r : list A) x :
  x ∈ intersect l r ↔ x ∈ l ∧ x ∈ r.
Proof. unfold intersect. rewrite elem_of_remove_dups, list_elem_of_filter. tauto. Qed.

Lemma elem_of_directBetween d a b c :
  c ∈ directBetween d a b ↔
  c ∈ conversations d ∧ Conversation.isGroup c = Some false
  ∧ isMember d (Conversation.id c) a ∧ isMember d (Conversation.id c) b.
Proof. unfold directBetween. rewrite list_elem_of_filter. naive_solver. Qed.

(** The intersection computed by the resolver has the direct
    conversations of the pair as its elements. *)
Lemma elem_of_existing d a b c :
  c ∈ intersect (directWith d a) (directWith d b) ↔ c ∈ directBetween d a b.
Proof.
  rewrite elem_of_intersect, !elem_of_directWith, elem_of_directBetween. naive_solver.
Qed.

Lemma directWith_row (u : string) (c : Conversation.t) (M : list ConversationMember.t) :
  (filter (λ r : Conversation.t * ConversationMember.t,
             Conversation.isGroup r.1 = Some false ∧ ConversationMember.userId r.2 = u)
     (filter (λ r : Conversation.t * ConversationMember.t,
                Conversation.id r.1 = ConversationMember.conversationId r.2)
        ((λ m, (c, m)) <$> M))).*1
  = replicate
      (length (filter (λ m, Conversation.id c = ConversationMember.conversationId m
                            ∧ Conversation.isGroup c = Some false
                            ∧ ConversationMember.userId m = u) M)) c.
Proof.
  induction M as [|m M IH]; [done|].
  rewrite fmap_cons.
  destruct (decide (Conversation.id c = ConversationMember.conversationId m)) as [Hc|Hc],
    (decide (Conversation.isGroup c = Some false)) as [Hg|Hg],
    (decide (ConversationMember.userId m = u)) as [Hu|Hu];
    repeat first [ rewrite filter_cons_True by (simpl; tauto)
                 | rewrite filter_cons_False by (simpl; tauto) ];
    first [ exact IH | rewrite fmap_cons; simpl; f_equal; exact IH ].
Qed.

(** [directWith] lists the conversations in table order, each as often
    as it has matching membership rows. *)
Lemma directWith_replicate d u :
  directWith d u = c ← conversations d; replicate (mult d u c) c.
Proof.
  unfold directWith, innerJoin, mult.
  induction (conversations d) as [|c L IH]; [done|].
  rewrite !bind_cons, !filter_app, fmap_app, IH. f_equal.
  apply directWith_row.
Qed.

Lemma mult_pos d u c :
  (0 < mult d u c)%nat ↔
  Conversation.isGroup c = Some false ∧ isMember d (Conversation.id c) u.
Proof.
  unfold mult. rewrite isMember_iff. split.
  - intros Hlen. destruct (filter _ _) as [|m l] eqn:Hf; [simpl in Hlen; lia|].
    assert (Hm : m ∈ filter (λ m, Conversation.id c = ConversationMember.conversationId m
                            ∧ Conversation.isGroup c = Some false
                            ∧ ConversationMember.userId m = u) (conversationMembers d))
      by (rewrite Hf; left).
    apply list_elem_of_filter in Hm. naive_solver.
  - intros (Hg & m & Hm & Hc & Hu).
    assert (Hin : m ∈ filter (λ m, Conversation.id c = ConversationMember.conversationId m
                            ∧ Conversation.isGroup c = Some false
                            ∧ ConversationMember.userId m = u) (conversationMembers d))
      by (apply list_elem_of_filter; naive_solver).
    destruct (filter _ _); [by apply elem_of_nil in Hin | simpl; lia].
Qed.

Lemma filter_ext_in {A} (P Q : A → Prop) `{!∀ x, Decision (P x), !∀ x, Decision (Q x)}
    (l : list A) :
  (∀ x, x ∈ l → P x ↔ Q x) → filter P l = filter Q l.
Proof.
  induction l as [|x l IH]; intros Hext; [done|].
  assert (Hl : filter P l = filter Q l).
  { apply IH. intros y Hy. apply Hext. by right. }
  specialize (Hext x (list_elem_of_here x l)).
  destruct (decide (P x)).
  - rewrite !filter_cons_True by tauto. by rewrite Hl.
  - rewrite !filter_cons_False by tauto. done.
Qed.

Lemma remove_dups_replicate_app `{EqDecision A} n (c : A) (X : list A) :
  c ∉ X → remove_dups (replicate (S n) c ++ X) = c :: remove_dups X.
Proof.
  intros Hc. induction n as [|n IH].
  - simpl. by destruct (decide_rel elem_of c X).
  - change (replicate (S (S n)) c ++ X)%list with (c :: (replicate (S n) c ++ X))%list.
    cbn [remove_dups]. destruct (decide_rel elem_of c (replicate (S n) c ++ X)%list) as [|Hn];
      [exact IH|]. destruct Hn. left.
Qed.

Lemma filter_replicate {A} (P : A → Prop) `{!∀ x, Decision (P x)} n (c : A) :
  filter P (replicate n c) = if decide (P c) then replicate n c else [].
Proof.
  induction n as [|n IH]; simpl; [by case_decide|].
  rewrite filter_cons, IH. by case_decide.
Qed.

Lemma elem_of_bind_replicate {A} (f : A → nat) (K : list A) x :
  x ∈ (c ← K; replicate (f c) c) ↔ x ∈ K ∧ (0 < f x)%nat.
Proof.
  rewrite list_elem_of_bind. split.
  - intros (c & Hx & Hc). apply elem_of_replicate in Hx as [-> Hn]. split; [done|lia].
  - intros [Hx Hn]. exists x. split; [|done]. apply elem_of_replicate. split; [done|lia].
Qed.

(** Distinct rows listed with multiplicities: the intersection keeps,
    in order, those that occur on both sides. *)
Lemma intersect_bind_replicate `{EqDecision A} (f : A → nat) (r K : list A) :
  NoDup K →
  intersect (c ← K; replicate (f c) c) r = filter (λ c, (0 < f c)%nat ∧ c ∈ r) K.
Proof.
  unfold intersect.
  induction K as [|c K IH]; intros Hnd; [done|].
  apply NoDup_cons in Hnd as [Hc Hnd]. specialize (IH Hnd).
  rewrite bind_cons, filter_app, filter_replicate.
  destruct (f c) as [|n] eqn:Hf.
  - rewrite filter_cons_False by lia. by destruct (decide (c ∈ r)).
  - destruct (decide (c ∈ r)) as [Hr|Hr].
    + rewrite filter_cons_True by (split; [lia|done]).
      rewrite remove_dups_replicate_app, IH; [done|].
      intros Hin. apply list_elem_of_filter in Hin as [_ Hin].
      apply elem_of_bind_replicate in Hin. tauto.
    + rewrite filter_cons_False by tauto. done.
Qed.

(** Under the primary key of [conversations] the resolver's query
    returns exactly the direct conversations of the pair, in table
    order. *)
Lemma existing_eq d a b :
  NoDup (conversations d) →
  intersect (directWith d a) (directWith d b) = directBetween d a b.
Proof.
  intros Hnd. rewrite (directWith_replicate d a), intersect_bind_replicate by done.
  unfold directBetween. apply filter_ext_in. intros c Hc.
  rewrite mult_pos, elem_of_directWith. tauto.
Qed.

Lemma directBetween_comm d a b : directBetween d a b = directBetween d b a.
Proof. unfold directBetween. apply list_filter_iff. tauto. Qed.

(** *** Generated ids *)

Lemma elem_of_primaryKeys d x :
  x ∈ primaryKeys d ↔
  x ∈ User.id <$> users d ∨ x ∈ Conversation.id <$> conversations d
  ∨ x ∈ ConversationMember.id <$> conversationMembers d
  ∨ x ∈ Message.id <$> messages d ∨ x ∈ Call.id <$> calls d.
Proof. unfold primaryKeys. by rewrite !elem_of_app. Qed.

Lemma upcoming_S d d' k :
  rng d' = rng d → drawn d' = S (drawn d) →
  upcoming d (S k) = rng d (drawn d) :: upcoming d' k.
Proof.
  intros Hr Hd. unfold upcoming. rewrite Hr, Hd. simpl. rewrite Nat.add_0_r. f_equal.
  rewrite <- fmap_S_seq, <- list_fmap_compose. apply list_fmap_ext.
  intros i x _. simpl. f_equal. lia.
Qed.

Lemma fresh_next d k : fresh d (S k) → rng d (drawn d) ∉ primaryKeys d.
Proof.
  intros [_ Hf]. rewrite (upcoming_S d (afterDraw d)) in Hf by done.
  by apply Forall_cons in Hf as [? _].
Qed.

(** A statement that draws one id and adds at most that key leaves the
    following ids new. *)
Lemma fresh_step d d' k :
  fresh d (S k) → rng d' = rng d → drawn d' = S (drawn d) →
  (∀ x, x ∈ primaryKeys d' → x ∈ primaryKeys d ∨ x = rng d (drawn d)) →
  fresh d' k.
Proof.
  intros [Hnd Hf] Hr Hd Hkeys. rewrite (upcoming_S d d') in Hnd, Hf by done.
  apply NoDup_cons in Hnd as [Hnew Hnd]. apply Forall_cons in Hf as [_ Hf].
  split; [done|]. rewrite Forall_forall in Hf |- *. intros x Hx Hin.
  destruct (Hkeys x Hin) as [?| ->]; [by eapply Hf | done].
Qed.

Lemma fresh_weaken d k : fresh d (S k) → fresh d k.
Proof.
  intros [Hnd Hf]. unfold fresh, upcoming in *.
  rewrite seq_S, fmap_app in Hnd, Hf.
  apply NoDup_app in Hnd as [Hnd _]. apply Forall_app in Hf as [Hf _]. done.
Qed.

(** *** The inserts, when the generated id is free *)

Lemma createConversation_ok d c :
  rng d (drawn d) ∉ Conversation.id <$> conversations d →
  references (User.id <$> users d) (ic_createdBy c) →
  createConversation c d =
    (set_conversations (λ l, (l ++ [conversationRow d c])%list) (afterDraw d),
     inr (conversationRow d c)).
Proof.
  intros Hid Hfk. unfold createConversation. qsimpl.
  rewrite decide_False by done. rewrite decide_True by done. done.
Qed.

Lemma addConversationMember_ok d conversationId userId :
  rng d (drawn d) ∉ ConversationMember.id <$> conversationMembers d →
  conversationId ∈ Conversation.id <$> conversations d →
  userId ∈ User.id <$> users d →
  addConversationMember conversationId userId d =
    (set_conversationMembers
       (λ l, (l ++ [memberRow d conversationId userId])%list) (afterDraw d),
     inr tt).
Proof.
  intros Hid Hc Hu. unfold addConversationMember. qsimpl.
  rewrite decide_False by done. rewrite decide_True by done. done.
Qed.

Lemma fresh_afterCreateConversation d c k :
  fresh d (S k) → fresh (afterCreateConversation d c) k.
Proof.
  intros Hf. apply (fresh_step d); [done..|].
  intros x. rewrite !elem_of_primaryKeys. simpl.
  rewrite fmap_app, elem_of_app. simpl. rewrite list_elem_of_singleton. tauto.
Qed.

Lemma fresh_afterAddMember d conversationId userId k :
  fresh d (S k) → fresh (afterAddMember d conversationId userId) k.
Proof.
  intros Hf. apply (fresh_step d); [done..|].
  intros x. rewrite !elem_of_primaryKeys. simpl.
  rewrite fmap_app, elem_of_app. simpl. rewrite list_elem_of_singleton. tauto.
Qed.

Lemma createConversation_fresh d c k :
  fresh d (S k) → references (User.id <$> users d) (ic_createdBy c) →
  createConversation c d = (afterCreateConversation d c, inr (conversationRow d c)).
Proof.
  intros Hf Hfk. apply createConversation_ok; [|done].
  apply fresh_next in Hf. rewrite elem_of_primaryKeys in Hf. tauto.
Qed.

Lemma addConversationMember_fresh d conversationId userId k :
  fresh d (S k) →
  conversationId ∈ Conversation.id <$> conversations d →
  userId ∈ User.id <$> users d →
  addConversationMember conversationId userId d
  = (afterAddMember d conversationId userId, inr tt).
Proof.
  intros Hf Hc Hu. apply addConversationMember_ok; [|done..].
  apply fresh_next in Hf. rewrite elem_of_primaryKeys in Hf. tauto.
Qed.

(** *** getOrCreateDirectConversation *)

Lemma getOrCreateDirect_found d a b c l :
  intersect (directWith d a) (directWith d b) = c :: l →
  getOrCreateDirectConversation a b d = (d, inr c).
Proof. intros H. unfold getOrCreateDirectConversation. qsimpl. by rewrite H. Qed.

Lemma getOrCreateDirect_created d a b :
  intersect (directWith d a) (directWith d b) = [] →
  a ∈ User.id <$> users d → b ∈ User.id <$> users d → fresh d 3 →
  let c := conversationRow d (directInsert a) in
  let d1 := afterCreateConversation d (directInsert a) in
  let d2 := afterAddMember d1 (Conversation.id c) a in
  getOrCreateDirectConversation a b d
  = (afterAddMember d2 (Conversation.id c) b, inr c).
Proof.
  intros Hnone Ha Hb Hf c d1 d2.
  assert (Hf1 : fresh d1 2) by by apply fresh_afterCreateConversation.
  assert (Hf2 : fresh d2 1) by by apply fresh_afterAddMember.
  assert (Hc : Conversation.id c ∈ Conversation.id <$> conversations d1).
  { simpl. rewrite fmap_app, elem_of_app. right. simpl. left. }
  unfold getOrCreateDirectConversation, qbind at 1, reads. rewrite Hnone.
  unfold qbind. fold (directInsert a).
  rewrite (createConversation_fresh d _ 2) by done.
  rewrite (addConversationMember_fresh d1 _ _ 1) by done.
  rewrite (addConversationMember_fresh d2 _ _ 0) by done.
  done.
Qed.

(** C2. The resolver computes the intersection of the non-group
    conversations that have [userA] as a member with those that have
    [userB] as a member.  When the intersection is not empty it returns
    one of its elements and leaves the database as it was.  Otherwise
    (the two users exist, the generated ids are new) it inserts one
    non-group conversation, inserts a membership row for [userA] and one
    for [userB], changes nothing else, and returns the new
    conversation. *)
Theorem getOrCreateDirect_intersection_or_create (d : Db) (userA userB : string) :
  let existing := intersect (directWith d userA) (directWith d userB) in
  (existing = [] →
   userA ∈ User.id <$> users d ∧ userB ∈ User.id <$> users d ∧ fresh d 3) →
  (∀ c u, c ∈ directWith d u ↔
          c ∈ conversations d ∧ Conversation.isGroup c = Some false
          ∧ isMember d (Conversation.id c) u)
  ∧ (∀ c, c ∈ existing ↔ c ∈ directWith d userA ∧ c ∈ directWith d userB)
  ∧ ∃ c d', getOrCreateDirectConversation userA userB d = (d', inr c)
      ∧ (if decide (existing = []) then
          (c ∉ conversations d)
          ∧ Conversation.isGroup c = Some false
          ∧ conversations d' = (conversations d ++ [c])%list
          ∧ conversationMembers d' =
              (conversationMembers d ++
               [ConversationMember.mk (rng d (1 + drawn d)) (Conversation.id c) userA
                  (Some (now d));
                ConversationMember.mk (rng d (2 + drawn d)) (Conversation.id c) userB
                  (Some (now d))])%list
          ∧ users d' = users d ∧ messages d' = messages d ∧ calls d' = calls d
        else c ∈ existing ∧ d' = d).
Proof.
  intros existing Hpre.
  split; [intros c u; apply elem_of_directWith|].
  split; [intros c; apply elem_of_intersect|].
  destruct (decide (existing = [])) as [Hnone|Hsome].
  - destruct (Hpre Hnone) as (Ha & Hb & Hf).
    eexists _, _. split; [by apply getOrCreateDirect_created|].
    split.
    { intros Hin. apply fresh_next in Hf. rewrite elem_of_primaryKeys in Hf.
      apply Hf. right. left. by apply (list_elem_of_fmap_2 Conversation.id) in Hin. }
    simpl. rewrite <- (assoc_L app). done.
  - destruct existing as [|c l] eqn:He; [done|].
    exists c, d. split; [by eapply getOrCreateDirect_found|].
    split; [left | done].
Qed.

Lemma getOrCreateDirect_intersection_or_create_witness :
  ∃ c d',
    getOrCreateDirectConversation "u1" "u2" db0 = (d', inr c)
    ∧ conversations d' = [c]
    ∧ (ConversationMember.userId <$> conversationMembers d') = ["u1"; "u2"].
Proof.
  destruct (getOrCreateDirect_intersection_or_create db0 "u1" "u2")
    as (_ & _ & c & d' & Hrun & Hcase).
  - intros _. repeat split; compute_done.
  - exists c, d'. split; [exact Hrun|].
    rewrite decide_True in Hcase by reflexivity.
    destruct Hcase as (_ & _ & Hc & Hm & _). rewrite Hc, Hm. split; reflexivity.
Defined.

Lemma directBetween_created d a b :
  directBetween d a b = [] → fresh d 3 →
  let c := conversationRow d (directInsert a) in
  let d1 := afterCreateConversation d (directInsert a) in
  let d2 := afterAddMember d1 (Conversation.id c) a in
  directBetween (afterAddMember d2 (Conversation.id c) b) a b = [c].
Proof.
  intros Hnone Hf c d1 d2.
  assert (Hid : ∀ c', c' ∈ conversations d → Conversation.id c' ≠ Conversation.id c).
  { intros c' Hin Heq. apply fresh_next in Hf. rewrite elem_of_primaryKeys in Hf.
    apply Hf. right. left. apply list_elem_of_fmap. exists c'. by rewrite Heq. }
  assert (Hmem : ∀ k u, isMember (afterAddMember d2 (Conversation.id c) b) k u ↔
            isMember d k u ∨ (k = Conversation.id c ∧ (u = a ∨ u = b))).
  { intros k u. unfold isMember. simpl. rewrite !Exists_app, !Exists_cons, !Exists_nil.
    simpl. naive_solver. }
  unfold directBetween in *.
  change (conversations (afterAddMember d2 (Conversation.id c) b))
    with (conversations d ++ [c])%list.
  rewrite filter_app.
  rewrite (filter_ext_in _ (λ c, Conversation.isGroup c = Some false
               ∧ isMember d (Conversation.id c) a ∧ isMember d (Conversation.id c) b)).
  - rewrite Hnone, filter_cons_True; [done|].
    rewrite !Hmem. simpl. tauto.
  - intros c' Hc'. rewrite !Hmem. specialize (Hid c' Hc'). tauto.
Qed.

(** C1. Resolving the direct conversation of a pair twice in a row, the
    second time with the users in either order, returns the same
    conversation both times, and the second call leaves the database as
    the first one left it.  A conversation is created only when the pair
    had none: afterwards the direct conversations of the pair are the ones
    it had before or, if it had none, the returned one alone, so a pair
    with at most one direct conversation still has at most one. *)
Theorem getOrCreateDirect_idempotent (d : Db) (userA userB : string) :
  NoDup (Conversation.id <$> conversations d) →
  (directBetween d userA userB = [] →
   userA ∈ User.id <$> users d ∧ userB ∈ User.id <$> users d ∧ fresh d 3) →
  ∃ c d1,
    getOrCreateDirectConversation userA userB d = (d1, inr c)
    ∧ getOrCreateDirectConversation userA userB d1 = (d1, inr c)
    ∧ getOrCreateDirectConversation userB userA d1 = (d1, inr c)
    ∧ directBetween d1 userA userB =
        (if decide (directBetween d userA userB = []) then [c]
         else directBetween d userA userB)
    ∧ ((length (directBetween d userA userB) ≤ 1)%nat →
       (length (directBetween d1 userA userB) ≤ 1)%nat).
Proof.
  intros Hpk Hpre. pose proof (NoDup_fmap_1 _ _ Hpk) as Hnd.
  destruct (directBetween d userA userB) as [|c l] eqn:Hd.
  - destruct (Hpre eq_refl) as (Ha & Hb & Hf).
    pose proof (directBetween_created d userA userB Hd Hf) as Hone. simpl in Hone.
    set (c := conversationRow d (directInsert userA)) in *.
    set (d1 := afterAddMember _ _ userB) in *.
    assert (Hnd1 : NoDup (conversations d1)).
    { simpl. apply NoDup_app. split; [done|]. split; [|apply NoDup_singleton].
      intros x Hx Hx'. apply list_elem_of_singleton in Hx' as ->.
      apply fresh_next in Hf. rewrite elem_of_primaryKeys in Hf.
      apply Hf. right. left. by apply (list_elem_of_fmap_2 Conversation.id) in Hx. }
    exists c, d1. split.
    { apply getOrCreateDirect_created; [by rewrite existing_eq|done..]. }
    split; [eapply getOrCreateDirect_found; by rewrite existing_eq|].
    split; [eapply getOrCreateDirect_found;
            by rewrite existing_eq, directBetween_comm|].
    rewrite Hone. split; [by rewrite decide_True | simpl; lia].
  - exists c, d. rewrite decide_False by done.
    split; [eapply getOrCreateDirect_found; by rewrite existing_eq|].
    split; [eapply getOrCreateDirect_found; by rewrite existing_eq|].
    split; [eapply getOrCreateDirect_found;
            by rewrite existing_eq, directBetween_comm|].
    by rewrite Hd.
Qed.

Lemma getOrCreateDirect_idempotent_witness :
  ∃ c d1,
    getOrCreateDirectConversation "u1" "u2" db0 = (d1, inr c)
    ∧ getOrCreateDirectConversation "u2" "u1" d1 = (d1, inr c)
    ∧ directBetween d1 "u1" "u2" = [c].
Proof.
  destruct (getOrCreateDirect_idempotent db0 "u1" "u2")
    as (c & d1 & Hfirst & _ & Hswap & Hafter & _).
  - compute_done.
  - intros _. repeat split; compute_done.
  - exists c, d1. rewrite decide_True in Hafter by reflexivity. auto.
Defined.

(** *** deleteMessage *)

Lemma server_eta s : {| db := db s; connections := connections s; sockets := sockets s |} = s.
Proof. by destruct s. Qed.

Lemma deleteMessage_eq d messageId userId :
  deleteMessage messageId userId d =
    (set_messages
       (fmap (λ m, if decide (Message.id m = messageId ∧ Message.senderId m = userId)
                   then set_isDeleted m else m)) d,
     inr (bool_decide
            (0 < length (set_isDeleted <$>
                           filter (λ m, Message.id m = messageId
                                        ∧ Message.senderId m = userId)
                             (messages d)))%nat)).
Proof. reflexivity. Qed.

Lemma deleteMessage_applied d messageId userId :
  ∃ d' applied,
    deleteMessage messageId userId d = (d', inr applied)
    ∧ (applied = true ↔
       ∃ m, m ∈ messages d ∧ Message.id m = messageId ∧ Message.senderId m = userId).
Proof.
  eexists _, _. split; [apply deleteMessage_eq|].
  rewrite bool_decide_eq_true, length_fmap. split.
  - intros Hlen. destruct (filter _ _) as [|m l] eqn:Hf; [simpl in Hlen; lia|].
    assert (Hm : m ∈ filter (λ m, Message.id m = messageId
                                  ∧ Message.senderId m = userId) (messages d))
      by (rewrite Hf; left).
    apply list_elem_of_filter in Hm. naive_solver.
  - intros (m & Hm & Hid & Hs).
    assert (Hin : m ∈ filter (λ m, Message.id m = messageId
                                   ∧ Message.senderId m = userId) (messages d))
      by (apply list_elem_of_filter; naive_solver).
    destruct (filter _ _); [by apply elem_of_nil in Hin | simpl; lia].
Qed.

(** C4. [deleteMessage] returns true exactly when a stored message has
    the given id and the requester as its sender (false for an unknown
    id and for a requester who is not the sender).  The messages table
    keeps its rows and their order: a row with that id and that sender
    gets its soft-delete flag set to true and keeps its other columns,
    every other row, a reply to it included, is left as it is, and so is
    every other table.  The route answers 404 when nothing was
    deleted. *)
Theorem deleteMessage_owner_only (d : Db) (messageId requesterId : string) :
  ∃ d' applied,
    deleteMessage messageId requesterId d = (d', inr applied)
    ∧ (applied = true ↔
       ∃ m, m ∈ messages d ∧ Message.id m = messageId
            ∧ Message.senderId m = requesterId)
    ∧ (∀ i m, messages d !! i = Some m →
         messages d' !! i =
           Some (if decide (Message.id m = messageId ∧ Message.senderId m = requesterId)
                 then Message.mk (Message.id m) (Message.conversationId m)
                        (Message.senderId m) (Message.content m) (Message.type m)
                        (Message.fileUrl m) (Message.fileName m) (Message.fileSize m)
                        (Message.replyToId m) (Some true) (Message.createdAt m)
                 else m))
    ∧ (∀ i m, messages d !! i = Some m →
         Message.id m = messageId → Message.senderId m = requesterId →
         ∃ m', messages d' !! i = Some m' ∧ Message.isDeleted m' = Some true
               ∧ Message.id m' = Message.id m)
    ∧ (∀ i m, messages d !! i = Some m → Message.id m ≠ messageId →
         messages d' !! i = Some m)
    ∧ length (messages d') = length (messages d)
    ∧ users d' = users d ∧ conversations d' = conversations d
    ∧ conversationMembers d' = conversationMembers d ∧ calls d' = calls d
    ∧ (∀ s, db s = d →
         status (deleteMessageRoute (Some requesterId) messageId s).2
         = if applied then 200%nat else 404%nat).
Proof.
  destruct (deleteMessage_applied d messageId requesterId)
    as (d' & applied & Hrun & Happlied).
  exists d', applied. split; [done|]. split; [done|].
  rewrite deleteMessage_eq in Hrun. injection Hrun as <- Hb. simpl.
  split; [intros i m Hi; by rewrite list_lookup_fmap, Hi|].
  split.
  { intros i m Hi Hid Hsender. rewrite list_lookup_fmap, Hi. simpl.
    rewrite decide_True by done. eexists. split; [reflexivity|done]. }
  split.
  { intros i m Hi Hne. rewrite list_lookup_fmap, Hi. simpl.
    rewrite decide_False; [done | tauto]. }
  split; [apply length_fmap|].
  do 4 (split; [done|]).
  intros s <-. unfold deleteMessageRoute, requireAuth, tryCatch, runDb.
  rewrite deleteMessage_eq, Hb. by destruct applied.
Qed.

(** *** getConversationMessages *)

#[global] Instance ts_le_total : Total ts_le.
Proof. intros [x|] [y|]; simpl; auto. lia. Qed.

#[global] Instance ts_le_trans : Transitive ts_le.
Proof. intros [x|] [y|] [z|]; simpl; auto; try tauto. lia. Qed.

#[global] Instance newer_first_total : Total newer_first.
Proof. intros x y. unfold newer_first. destruct (total ts_le (Message.createdAt x.1) (Message.createdAt y.1)); auto. Qed.

#[global] Instance newer_first_trans : Transitive newer_first.
Proof. intros x y z Hxy Hyz. unfold newer_first in *. by etrans. Qed.

Lemma getConversationMessages_eq d conversationId limit offset :
  getConversationMessages conversationId limit offset d =
    (d, inr (let messageList :=
               page d conversationId (default 50%nat limit) (default 0%nat offset) in
             reverse (toView (replyMapOf d messageList) <$> messageList))).
Proof. reflexivity. Qed.

Lemma elem_of_page d conversationId n k r :
  r ∈ page d conversationId n k → r ∈ visibleRows d conversationId.
Proof.
  unfold page, limit_offset. intros Hr.
  apply subseteq_take, subseteq_drop in Hr. by rewrite merge_sort_Permutation in Hr.
Qed.

Lemma elem_of_visibleRows d conversationId m u :
  (m, u) ∈ visibleRows d conversationId ↔
  m ∈ messages d ∧ u ∈ users d ∧ Message.senderId m = User.id u
  ∧ Message.conversationId m = conversationId ∧ Message.isDeleted m = Some false.
Proof.
  unfold visibleRows, messagesWithSender.
  rewrite list_elem_of_filter, elem_of_innerJoin. simpl. tauto.
Qed.

Lemma StronglySorted_take_drop {A} (R : relation A) n k (l : list A) :
  StronglySorted R l → StronglySorted R (take n (drop k l)).
Proof.
  intros Hl. rewrite <- (take_drop k l) in Hl. apply StronglySorted_app_1_r in Hl.
  rewrite <- (take_drop n (drop k l)) in Hl. by apply StronglySorted_app_1_l in Hl.
Qed.

Lemma StronglySorted_reverse {A} (R : relation A) (l : list A) :
  StronglySorted R l → StronglySorted (flip R) (reverse l).
Proof.
  induction 1 as [|x l Hl IH Hx]; [constructor|].
  rewrite reverse_cons. apply StronglySorted_app_2; [|done|repeat constructor].
  intros y z Hy Hz. apply list_elem_of_singleton in Hz as ->.
  rewrite elem_of_reverse in Hy. rewrite Forall_forall in Hx. by apply Hx.
Qed.

Lemma rowOf_toView replyMap (l : list (Message.t * User.t)) :
  rowOf <$> (toView replyMap <$> l) = l.
Proof.
  rewrite <- list_fmap_compose. rewrite <- (list_fmap_id l) at 2.
  apply list_fmap_ext. by intros i [m u] _.
Qed.

Lemma getMessages_defaults parseInt user conversationId s :
  getMessages parseInt (Some user) conversationId None None s =
    (s, {| status := 200;
           body := MessagesBody
             (reverse (toView (replyMapOf (db s) (page (db s) conversationId 50 0))
                       <$> page (db s) conversationId 50 0)) |}).
Proof.
  unfold getMessages, requireAuth, tryCatch, runDb.
  rewrite getConversationMessages_eq. unfold respond, queryInt. simpl.
  by rewrite server_eta.
Qed.

Lemma NoDup_innerJoin {A B} (l : list A) (r : list B) (on : A * B → Prop)
    `{!∀ ab, Decision (on ab)} :
  NoDup l → NoDup r → NoDup (innerJoin l r on).
Proof.
  intros Hl Hr. unfold innerJoin. apply NoDup_filter, NoDup_bind; [| |done].
  - intros a1 a2 [a b] _ _ (b1 & [= -> ->] & _)%list_elem_of_fmap
      (b2 & [= -> ->] & _)%list_elem_of_fmap. done.
  - intros a _. apply NoDup_fmap_2; [|done]. by intros b1 b2 [= ->].
Qed.

(** C5. A history query ranges over the stored messages of the
    conversation whose soft-delete flag is false, each one joined with
    its sender: every such message is among the rows, and once when the
    tables hold no row twice.  With these rows ordered newest first, it
    skips [offset] of them, keeps the next [limit], and returns them in
    reverse, oldest first.  Left out, [limit] is 50 and [offset] is 0, in
    the storage method and in the route. *)
Theorem history_page_oldest_first (d : Db) (conversationId : string)
    (limit offset : option nat) :
  let n := default 50%nat limit in
  let k := default 0%nat offset in
  ∃ rows views,
    getConversationMessages conversationId limit offset d = (d, inr views)
    ∧ rows ≡ₚ visibleRows d conversationId
    ∧ (∀ m u, (m, u) ∈ rows ↔
              m ∈ messages d ∧ u ∈ users d ∧ Message.senderId m = User.id u
              ∧ Message.conversationId m = conversationId
              ∧ Message.isDeleted m = Some false)
    ∧ (NoDup (messages d) → NoDup (users d) → NoDup rows)
    ∧ StronglySorted newer_first rows
    ∧ rowOf <$> views = reverse (take n (drop k rows))
    ∧ (∀ v, v ∈ views →
         message v ∈ messages d
         ∧ Message.conversationId (message v) = conversationId
         ∧ Message.isDeleted (message v) = Some false
         ∧ sender v ∈ users d
         ∧ User.id (sender v) = Message.senderId (message v))
    ∧ (length views ≤ n)%nat
    ∧ StronglySorted older_first views
    ∧ getConversationMessages conversationId None None d
      = getConversationMessages conversationId (Some 50%nat) (Some 0%nat) d
    ∧ (∀ parseInt user s, db s = d →
         ∃ views50,
           getConversationMessages conversationId (Some 50%nat) (Some 0%nat) d
           = (d, inr views50)
           ∧ getMessages parseInt (Some user) conversationId None None s
             = (s, {| status := 200; body := MessagesBody views50 |})).
Proof.
  intros n k.
  exists (merge_sort newer_first (visibleRows d conversationId)).
  eexists. split; [apply getConversationMessages_eq|]. cbv zeta. fold n k.
  set (rows := merge_sort newer_first (visibleRows d conversationId)).
  set (replyMap := replyMapOf d (page d conversationId n k)).
  assert (Hsorted : StronglySorted newer_first rows)
    by (apply StronglySorted_merge_sort; apply _).
  split; [apply merge_sort_Permutation|].
  split.
  { intros m u. unfold rows. rewrite merge_sort_Permutation. apply elem_of_visibleRows. }
  split.
  { intros Hm Hu. unfold rows. rewrite merge_sort_Permutation.
    apply NoDup_filter. by apply NoDup_innerJoin. }
  split; [done|].
  split; [by rewrite fmap_reverse, rowOf_toView|].
  split.
  { intros v Hv. rewrite elem_of_reverse in Hv.
    apply list_elem_of_fmap in Hv as ([m u] & -> & Hr).
    apply elem_of_page, elem_of_visibleRows in Hr. simpl. naive_solver. }
  split.
  { rewrite length_reverse, length_fmap. unfold page, limit_offset.
    rewrite length_take. lia. }
  split.
  { apply (StronglySorted_reverse (λ v w, newer_first (rowOf v) (rowOf w))).
    apply (StronglySorted_fmap (toView replyMap) newer_first);
      [by intros [m u] [m' u']|].
    by apply StronglySorted_take_drop. }
  split; [done|].
  intros parseInt user s <-. eexists. split; [apply getConversationMessages_eq|].
  apply getMessages_defaults.
Qed.

Lemma list_to_map_unique {V} (l : list (string * V)) k v :
  (k, v) ∈ l → (∀ v', (k, v') ∈ l → v' = v) →
  (list_to_map l : gmap string V) !! k = Some v.
Proof.
  induction l as [|[k' v'] l IH]; intros Hin Huniq; [by apply elem_of_nil in Hin|].
  simpl. destruct (decide (k' = k)) as [->|Hne].
  - rewrite lookup_insert_eq. f_equal. apply Huniq. left.
  - rewrite lookup_insert_ne by done. apply IH.
    + apply elem_of_cons in Hin as [Heq|Hin]; [congruence|done].
    + intros v'' Hv''. apply Huniq. by right.
Qed.

Lemma newMap_unique {V} (entries : list (string * V)) k v :
  (k, v) ∈ entries → (∀ v', (k, v') ∈ entries → v' = v) →
  newMap entries !! k = Some v.
Proof.
  intros Hin Huniq. apply list_to_map_unique.
  - by rewrite elem_of_reverse.
  - intros v'. rewrite elem_of_reverse. apply Huniq.
Qed.

(** A primary key identifies its row. *)
Lemma primary_key {A K} (key : A → K) (l : list A) x y :
  NoDup (key <$> l) → x ∈ l → y ∈ l → key x = key y → x = y.
Proof.
  induction l as [|z l IH]; intros Hnd Hx Hy Heq; [by apply elem_of_nil in Hx|].
  rewrite fmap_cons in Hnd. apply NoDup_cons in Hnd as [Hz Hnd].
  apply elem_of_cons in Hx as [->|Hx], Hy as [->|Hy]; [done|..|by apply IH].
  - destruct Hz. rewrite Heq. by apply list_elem_of_fmap_2.
  - destruct Hz. rewrite <- Heq. by apply list_elem_of_fmap_2.
Qed.

Lemma elem_of_messagesWithSender d m u :
  (m, u) ∈ messagesWithSender d ↔
  m ∈ messages d ∧ u ∈ users d ∧ Message.senderId m = User.id u.
Proof. unfold messagesWithSender. by rewrite elem_of_innerJoin. Qed.

(** The reply map of a page resolves the id of every message that a row
    of the page replies to, deleted or not. *)
Lemma replyMapOf_lookup d messageList r target u :
  NoDup (Message.id <$> messages d) → NoDup (User.id <$> users d) →
  r ∈ messageList → truthy (Message.replyToId r.1) = Some (Message.id target) →
  target ∈ messages d → u ∈ users d → User.id u = Message.senderId target →
  replyMapOf d messageList !! Message.id target = Some (target, u).
Proof.
  intros Hpm Hpu Hr Hreply Htarget Hu Hsender. unfold replyMapOf.
  set (replyIds := omap _ messageList).
  assert (Hid : Message.id target ∈ replyIds)
    by (apply list_elem_of_omap; eauto).
  rewrite decide_True by (destruct replyIds; [by apply elem_of_nil in Hid|simpl; lia]).
  apply newMap_unique.
  - apply list_elem_of_fmap. exists (target, u). split; [done|].
    apply list_elem_of_filter. split; [done|].
    by apply elem_of_messagesWithSender.
  - intros [m' u'] Hin. apply list_elem_of_fmap in Hin as ([m'' u''] & Heq & Hin).
    simpl in Heq. inversion Heq; subst m'' u''.
    apply list_elem_of_filter in Hin as [_ Hin].
    apply elem_of_messagesWithSender in Hin as (Hm' & Hu' & Hs').
    assert (m' = target) as -> by (by apply (primary_key Message.id (messages d))).
    assert (u' = u) as -> by (apply (primary_key User.id (users d)); congruence).
    done.
Qed.

(** C3. A message whose soft-delete flag is set is never an element of
    a history result.  When an element of the result replies to such a
    message, the deleted message, joined with its sender, is still what
    the element carries as its reply target. *)
Theorem history_hides_deleted_keeps_reply_target (d : Db) (conversationId : string)
    (limit offset : option nat) (target : Message.t) :
  NoDup (Message.id <$> messages d) → NoDup (User.id <$> users d) →
  target ∈ messages d → Message.isDeleted target = Some true →
  Message.id target ≠ "" → Message.senderId target ∈ User.id <$> users d →
  ∃ views,
    getConversationMessages conversationId limit offset d = (d, inr views)
    ∧ (∀ v, v ∈ views →
         message v ≠ target ∧ Message.id (message v) ≠ Message.id target)
    ∧ (∀ v, v ∈ views → Message.replyToId (message v) = Some (Message.id target) →
         ∃ u, u ∈ users d ∧ User.id u = Message.senderId target
              ∧ replyTo v = Some (target, u)).
Proof.
  intros Hpm Hpu Htarget Hdel Hid Hsender.
  eexists. split; [apply getConversationMessages_eq|]. cbv zeta.
  set (messageList := page d conversationId _ _).
  assert (Hv : ∀ v, v ∈ reverse (toView (replyMapOf d messageList) <$> messageList) →
            ∃ r, r ∈ messageList ∧ v = toView (replyMapOf d messageList) r).
  { intros v Hin. rewrite elem_of_reverse in Hin.
    apply list_elem_of_fmap in Hin as (r & -> & Hr). eauto. }
  split.
  - intros v Hin. destruct (Hv v Hin) as ([m u] & Hr & ->). simpl.
    apply elem_of_page, elem_of_visibleRows in Hr as (Hm & _ & _ & _ & Hvis).
    assert (Hne : m ≠ target) by congruence.
    split; [done|]. intros Heq. apply Hne.
    by apply (primary_key Message.id (messages d)).
  - intros v Hin Hreply. destruct (Hv v Hin) as (r & Hr & ->). simpl in *.
    apply list_elem_of_fmap in Hsender as (u & Hu & Huin).
    exists u. split; [done|]. split; [done|].
    assert (Ht : truthy (Message.replyToId r.1) = Some (Message.id target)).
    { rewrite Hreply. simpl. by rewrite decide_False. }
    rewrite Ht. simpl. by eapply replyMapOf_lookup.
Qed.

Lemma history_hides_deleted_keeps_reply_target_witness :
  ∃ views,
    getConversationMessages "c1" None None dbReplies = (dbReplies, inr views)
    ∧ (∀ v, v ∈ views →
         message v ≠ deletedMessage
         ∧ Message.id (message v) ≠ Message.id deletedMessage)
    ∧ (∀ v, v ∈ views →
         Message.replyToId (message v) = Some (Message.id deletedMessage) →
         ∃ u, u ∈ users dbReplies ∧ User.id u = Message.senderId deletedMessage
              ∧ replyTo v = Some (deletedMessage, u)).
Proof.
  apply (history_hides_deleted_keeps_reply_target dbReplies "c1" None None deletedMessage);
    compute_done.
Defined.

(** On the sample conversation: the deleted first message is not listed,
    the second one still shows it as its reply target. *)
Example history_dbReplies :
  (getConversationMessages "c1" None None dbReplies).2 =
  inr [ {| message := sampleMessage "m2" "u2" "second" (Some "m1") false 20;
           sender := sampleUser "u2" "bob";
           replyTo := Some (deletedMessage, sampleUser "u1" "alice") |};
        {| message := sampleMessage "m3" "u1" "third" None false 30;
           sender := sampleUser "u1" "alice";
           replyTo := None |} ].
Proof. vm_compute. reflexivity. Qed.

(** *** addConversationMember and duplicate pairs *)

(** C7, as stated, fails: [u1] is already a member of [c1], adding the
    pair again returns normally, no error reaches the caller, and the
    table then holds the pair twice. *)
Lemma addConversationMember_duplicate_unreported :
  isMember dbReplies "c1" "u1"
  ∧ (addConversationMember "c1" "u1" dbReplies).2 = inr tt
  ∧ filter (λ m, ConversationMember.conversationId m = "c1"
                 ∧ ConversationMember.userId m = "u1")
      (conversationMembers (addConversationMember "c1" "u1" dbReplies).1)
    = [ConversationMember.mk "p1" "c1" "u1" (Some 5);
       ConversationMember.mk "k0" "c1" "u1" (Some 1700000000000)].
Proof. split; [compute_done|]. split; vm_compute; reflexivity. Qed.

(** C7, amended. Inserting a membership pair that already exists is not
    reported to the caller: for an existing conversation and an existing
    user the insert, issued with on-conflict-do-nothing, returns normally
    and keeps every row that was there. *)
Theorem addConversationMember_existing_pair_returns (d : Db)
    (conversationId userId : string) :
  isMember d conversationId userId →
  conversationId ∈ Conversation.id <$> conversations d →
  userId ∈ User.id <$> users d →
  ∃ d', addConversationMember conversationId userId d = (d', inr tt)
        ∧ (∀ m, m ∈ conversationMembers d → m ∈ conversationMembers d').
Proof.
  intros _ Hc Hu. unfold addConversationMember. qsimpl.
  destruct (decide (rng d (drawn d) ∈ ConversationMember.id <$> conversationMembers d)).
  - eexists. split; [reflexivity|]. done.
  - rewrite decide_True by done. eexists. split; [reflexivity|].
    simpl. intros m Hm. apply elem_of_app. by left.
Qed.

Lemma addConversationMember_existing_pair_returns_witness :
  ∃ d', addConversationMember "c1" "u1" dbReplies = (d', inr tt)
        ∧ (∀ m, m ∈ conversationMembers dbReplies → m ∈ conversationMembers d').
Proof.
  apply (addConversationMember_existing_pair_returns dbReplies "c1" "u1"); compute_done.
Defined.

(** *** POST /api/conversations *)

Lemma forOf_app {A} (l1 l2 : list A) (f : A → Query unit) d :
  forOf (l1 ++ l2) f d = (forOf l1 f;; forOf l2 f)%query d.
Proof.
  revert d. induction l1 as [|x l1 IH]; intros d; [done|].
  simpl. unfold qbind in *. destruct (f x d) as [d' [e|[]]]; [done|]. apply IH.
Qed.

Lemma addConversationMember_missing_user d conversationId userId k :
  fresh d (S k) → userId ∉ User.id <$> users d →
  addConversationMember conversationId userId d = (afterDraw d, inl ForeignKeyViolation).
Proof.
  intros Hf Hu. apply fresh_next in Hf. rewrite elem_of_primaryKeys in Hf.
  unfold addConversationMember. qsimpl.
  rewrite decide_False by tauto. rewrite decide_False by tauto. done.
Qed.

(** The loop over the requested members, as long as they are users. *)
Lemma forOf_addConversationMember d conversationId memberIds k :
  fresh d (length memberIds + k) →
  conversationId ∈ Conversation.id <$> conversations d →
  Forall (λ u, u ∈ User.id <$> users d) memberIds →
  ∃ d' rows,
    forOf memberIds (addConversationMember conversationId) d = (d', inr tt)
    ∧ fresh d' k
    ∧ users d' = users d ∧ conversations d' = conversations d
    ∧ conversationMembers d' = (conversationMembers d ++ rows)%list
    ∧ ConversationMember.userId <$> rows = memberIds
    ∧ Forall (λ m, ConversationMember.conversationId m = conversationId) rows.
Proof.
  revert d. induction memberIds as [|u memberIds IH]; intros d Hf Hc Hus.
  - exists d, []. by rewrite app_nil_r.
  - apply Forall_cons in Hus as [Hu Hus]. simpl in Hf.
    set (d1 := afterAddMember d conversationId u).
    destruct (IH d1) as (d' & rows & Hrun & Hf' & Husers & Hconvs & Hmem & Hids & Hcid);
      [by apply fresh_afterAddMember|done..|].
    exists d', (memberRow d conversationId u :: rows).
    split.
    { simpl. unfold qbind.
      by rewrite (addConversationMember_fresh d _ _ (length memberIds + k)). }
    split; [done|]. split; [done|]. split; [done|].
    split; [rewrite Hmem; simpl; by rewrite <- (assoc_L app)|].
    split; [rewrite fmap_cons, Hids; done|]. by constructor.
Qed.

(** C6, as stated, fails: [ghost] is not a user, the request is answered
    400, and yet the group stays in the database with the creator and the
    member requested before [ghost]; the one requested after it is
    missing. *)
Lemma postConversations_partial_group_remains :
  let r := postConversations (Some "u1") teamRequest server0 in
  ("ghost" ∉ User.id <$> users db0)
  ∧ r.2 = {| status := 400; body := ErrorBody "Failed to create conversation" |}
  ∧ conversations (db r.1) =
      [Conversation.mk "k0" (Some "Team") None (Some true) None (Some "u1")
         (Some 1700000000000)]
  ∧ (λ m, (ConversationMember.conversationId m, ConversationMember.userId m))
      <$> conversationMembers (db r.1) = [("k0", "u1"); ("k0", "u2")].
Proof. split; [compute_done|]. vm_compute. auto. Qed.

(** C6, amended. Group creation is not all-or-nothing: the conversation
    and its members are inserted one statement at a time.  When a
    requested member id is not a user, the request is answered 400 and
    the ids after it are not added, while the conversation, the
    creator's membership and the memberships of the ids before it
    remain. *)
Theorem postConversations_keeps_rows_before_invalid_member (s : Server)
    (creator : string) (reqBody : CreateConversationBody)
    (valid : list string) (invalid : string) (rest : list string) :
  cb_memberIds reqBody = Some (valid ++ invalid :: rest)%list →
  creator ∈ User.id <$> users (db s) →
  Forall (λ u, u ∈ User.id <$> users (db s)) valid →
  invalid ∉ User.id <$> users (db s) →
  fresh (db s) (3 + length valid) →
  ∃ s' c rows,
    postConversations (Some creator) reqBody s
    = (s', {| status := 400; body := ErrorBody "Failed to create conversation" |})
    ∧ conversations (db s') = (conversations (db s) ++ [c])%list
    ∧ (c ∉ conversations (db s))
    ∧ Conversation.isGroup c = column_default (Some false) (cb_isGroup reqBody)
    ∧ Conversation.createdBy c = Some creator
    ∧ conversationMembers (db s') = (conversationMembers (db s) ++ rows)%list
    ∧ ConversationMember.userId <$> rows = creator :: valid
    ∧ Forall (λ m, ConversationMember.conversationId m = Conversation.id c) rows.
Proof.
  intros Hids Hcreator Hvalid Hinvalid Hf.
  set (ic := {| ic_name := cb_name reqBody; ic_description := cb_description reqBody;
                ic_isGroup := cb_isGroup reqBody; ic_avatar := cb_avatar reqBody;
                ic_createdBy := Some creator |}).
  set (c := conversationRow (db s) ic).
  set (d1 := afterCreateConversation (db s) ic).
  set (d2 := afterAddMember d1 (Conversation.id c) creator).
  assert (Hf1 : fresh d1 (2 + length valid))
    by by apply fresh_afterCreateConversation.
  assert (Hf2 : fresh d2 (length valid + 1)).
  { apply fresh_afterAddMember. by rewrite Nat.add_1_r. }
  assert (Hc : Conversation.id c ∈ Conversation.id <$> conversations d1).
  { simpl. rewrite fmap_app, elem_of_app. right. simpl. left. }
  destruct (forOf_addConversationMember d2 (Conversation.id c) valid 1)
    as (d3 & rows & Hrun & Hf3 & Husers & Hconvs & Hmem & Huids & Hcids); [done..|].
  exists {| db := afterDraw d3; connections := connections s; sockets := sockets s |},
    c, (memberRow d1 (Conversation.id c) creator :: rows).
  split.
  { unfold postConversations, requireAuth, tryCatch, runDb. fold ic.
    unfold qbind. rewrite (createConversation_fresh (db s) ic (2 + length valid)) by done.
    fold c d1. rewrite (addConversationMember_fresh d1 _ _ (1 + length valid)) by done.
    fold d2. rewrite Hids, forOf_app. unfold qbind.
    change (λ memberId : string, addConversationMember (Conversation.id c) memberId)
      with (addConversationMember (Conversation.id c)).
    rewrite Hrun. simpl.
    unfold qbind.
    rewrite (addConversationMember_missing_user d3 _ _ 0) by (by rewrite ?Husers).
    done. }
  split; [simpl; by rewrite Hconvs|].
  split.
  { intros Hin. apply fresh_next in Hf. rewrite elem_of_primaryKeys in Hf.
    apply Hf. right. left. by apply (list_elem_of_fmap_2 Conversation.id) in Hin. }
  split; [done|]. split; [done|].
  split; [simpl; rewrite Hmem; simpl; by rewrite <- (assoc_L app)|].
  split; [by rewrite fmap_cons, Huids|]. by constructor.
Qed.

Lemma postConversations_keeps_rows_before_invalid_member_witness :
  ∃ s' c rows,
    postConversations (Some "u1") teamRequest server0
    = (s', {| status := 400; body := ErrorBody "Failed to create conversation" |})
    ∧ conversations (db s') = (conversations (db server0) ++ [c])%list
    ∧ (c ∉ conversations (db server0))
    ∧ Conversation.isGroup c = column_default (Some false) (cb_isGroup teamRequest)
    ∧ Conversation.createdBy c = Some "u1"
    ∧ conversationMembers (db s') = (conversationMembers (db server0) ++ rows)%list
    ∧ ConversationMember.userId <$> rows = "u1" :: ["u2"]
    ∧ Forall (λ m, ConversationMember.conversationId m = Conversation.id c) rows.
Proof.
  apply (postConversations_keeps_rows_before_invalid_member
           server0 "u1" teamRequest ["u2"] "ghost" ["u3"]);
    compute_done.
Defined.

(** *** Fan-out *)

Lemma foldl_deliver frame (hs : list nat) (socks : gmap nat WebSocket) h :
  NoDup hs →
  foldl (deliver frame) socks hs !! h =
    if decide (h ∈ hs)
    then (λ ws, if decide (readyState ws = OPEN) then ws_send frame ws else ws)
           <$> socks !! h
    else socks !! h.
Proof.
  revert socks. induction hs as [|x hs IH]; intros socks Hnd.
  - destruct (decide (h ∈ [])) as [Hin|]; [by apply elem_of_nil in Hin | done].
  - apply NoDup_cons in Hnd as [Hx Hnd].
    change (foldl (deliver frame) socks (x :: hs))
      with (foldl (deliver frame) (deliver frame socks x) hs).
    rewrite IH by done. unfold deliver.
    destruct (decide (h = x)) as [->|Hne].
    + rewrite lookup_alter_eq.
      destruct (decide (x ∈ hs)) as [|_]; [done|].
      destruct (decide (x ∈ x :: hs)) as [|Hn]; [done|]. destruct Hn. left.
    + rewrite lookup_alter_ne by done.
      destruct (decide (h ∈ hs)) as [Hin|Hin], (decide (h ∈ x :: hs)) as [Hin'|Hin'];
        try done.
      * destruct Hin'. by right.
      * apply elem_of_cons in Hin' as [?|?]; done.
Qed.

Lemma broadcast_delivered frame s :
  distinctSockets s → delivered frame s (broadcast frame s).
Proof.
  intros Hnd. unfold delivered, broadcast. simpl. split; [done|].
  assert (Hreg : ∀ h, h ∈ (map_to_list (connections s)).*2 ↔
                      ∃ userId, connections s !! userId = Some h).
  { intros h. rewrite list_elem_of_fmap. split.
    - intros ([u h'] & -> & Hin). exists u. by apply elem_of_map_to_list.
    - intros [u Hu]. exists (u, h). split; [done|]. by apply elem_of_map_to_list. }
  split; [|split].
  - intros userId h ws Hc Hs Hopen. rewrite foldl_deliver by done.
    rewrite decide_True by (apply Hreg; eauto). rewrite Hs. simpl.
    rewrite decide_True by done. unfold ws_send. by rewrite Hopen.
  - intros h ws Hs Hcase. rewrite foldl_deliver by done.
    destruct (decide (h ∈ (map_to_list (connections s)).*2)) as [Hin|]; [|done].
    rewrite Hs. simpl. destruct Hcase as [Hclosed|Hnone].
    + by rewrite decide_False.
    + apply Hreg in Hin as [u Hu]. by destruct (Hnone u).
  - intros h Hs. rewrite foldl_deliver by done. rewrite Hs. by case_decide.
Qed.






Lemma patchCall_eq user id newStatus s :
  patchCall (Some user) id (Some newStatus) s =
    (broadcast {| type := "call_status_updated";
                  data := CallStatusData id (Some newStatus) |}
       {| db := set_calls
                  (fmap (λ c, if decide (Call.id c = id)
                              then set_status newStatus
                                     (if decide (newStatus = "ended")
                                      then Some (now (db s)) else None) c
                              else c)) (db s);
          connections := connections s; sockets := sockets s |},
     {| status := 200; body := SuccessBody |}).
Proof.
  unfold patchCall, requireAuth, tryCatch, runDb.
  destruct (decide (newStatus = "ended")) as [->|Hne]; [reflexivity|].
  rewrite decide_False by congruence. reflexivity.
Qed.




(** On the sample server: the owner deletes the second message and both
    open sockets receive the envelope, also the one of the other user;
    the closed socket receives nothing. *)
Example fan_out_serverLive :
  (λ h, sockets (deleteMessageRoute (Some "u2") "m2" serverLive).1 !! h)
    <$> [1; 2; 3]%nat =
  [ Some {| readyState := OPEN;
            sent := [{| type := "message_deleted"; data := MessageIdData "m2" |}] |};
    Some {| readyState := OPEN;
            sent := [{| type := "message_deleted"; data := MessageIdData "m2" |}] |};
    Some {| readyState := CLOSED; sent := [] |} ].
Proof. vm_compute. reflexivity. Qed.

(** *** Presence *)

Lemma head_filter_fmap {A} (P : A → Prop) `{!∀ x, Decision (P x)} (f : A → A)
    (l : list A) :
  (∀ x, P (f x) ↔ P x) → head (filter P (f <$> l)) = f <$> head (filter P l).
Proof.
  intros Hf. induction l as [|x l IH]; [done|]. rewrite fmap_cons.
  destruct (decide (P x)) as [Hx|Hx].
  - rewrite (filter_cons_True P (f x)) by (by apply Hf).
    by rewrite (filter_cons_True P x).
  - rewrite (filter_cons_False P (f x)) by (by rewrite Hf).
    by rewrite (filter_cons_False P x).
Qed.

Lemma getUser_eq userId d :
  getUser userId d = (d, inr (head (filter (λ u, User.id u = userId) (users d)))).
Proof. reflexivity. Qed.

(** Reading a user after a status update gives the row read before it,
    with its presence columns set. *)
Lemma getUser_updateUserOnlineStatus d userId isOnline u :
  getUser userId d = (d, inr (Some u)) →
  let d' := (updateUserOnlineStatus userId isOnline d).1 in
  getUser userId d' = (d', inr (Some (set_presence isOnline (now d) u))).
Proof.
  rewrite getUser_eq. intros [= Hhead]. simpl. rewrite getUser_eq. simpl.
  do 2 f_equal. rewrite (head_filter_fmap (λ u, User.id u = userId)).
  - rewrite Hhead. simpl.
    apply head_Some_elem_of, list_elem_of_filter in Hhead as [Hid _].
    by rewrite decide_True.
  - intros x. by case_decide.
Qed.

(** C9. For a connection whose handshake carries the id of an existing
    user: after the connection handler has run, reading the user gives
    an online flag of true (and the socket is registered under the id);
    after the close handler has run, in whatever state it runs, reading
    the user gives an online flag of false and a last-seen time equal to
    the clock at the close (and the registration is gone). *)
Theorem presence_follows_connection (s : Server) (ws : nat) (url : option string)
    (userId : string) (u : User.t) :
  urlUserId url = Some userId →
  getUser userId (db s) = (db s, inr (Some u)) →
  (let s1 := onConnection ws url s in
   ∃ u1, getUser userId (db s1) = (db s1, inr (Some u1))
         ∧ User.isOnline u1 = Some true
         ∧ User.lastSeen u1 = User.lastSeen u
         ∧ connections s1 !! userId = Some ws)
  ∧ (let s2 := onClose url s in
     ∃ u2, getUser userId (db s2) = (db s2, inr (Some u2))
           ∧ User.isOnline u2 = Some false
           ∧ User.lastSeen u2 = Some (now (db s))
           ∧ connections s2 !! userId = None)
  ∧ (let s3 := onClose url (onConnection ws url s) in
     ∃ u3, getUser userId (db s3) = (db s3, inr (Some u3))
           ∧ User.isOnline u3 = Some false
           ∧ User.lastSeen u3 = Some (now (db s))).
Proof.
  intros Hurl Hu.
  assert (Hopen : ∀ s0 u0, getUser userId (db s0) = (db s0, inr (Some u0)) →
            getUser userId (db (onConnection ws url s0))
            = (db (onConnection ws url s0), inr (Some (set_presence true (now (db s0)) u0)))
            ∧ now (db (onConnection ws url s0)) = now (db s0)).
  { intros s0 u0 H0. unfold onConnection. rewrite Hurl. unfold runDb. simpl.
    split; [|done]. by apply (getUser_updateUserOnlineStatus (db s0) userId true). }
  assert (Hclose : ∀ s0 u0, getUser userId (db s0) = (db s0, inr (Some u0)) →
            getUser userId (db (onClose url s0))
            = (db (onClose url s0), inr (Some (set_presence false (now (db s0)) u0)))).
  { intros s0 u0 H0. unfold onClose. rewrite Hurl. unfold runDb. simpl.
    by apply (getUser_updateUserOnlineStatus (db s0) userId false). }
  split; [|split].
  - eexists. split; [by apply Hopen|]. simpl. do 2 (split; [done|]).
    unfold onConnection. rewrite Hurl. simpl. apply lookup_insert_eq.
  - eexists. split; [by apply Hclose|]. simpl. do 2 (split; [done|]).
    unfold onClose. rewrite Hurl. simpl. apply lookup_delete_eq.
  - destruct (Hopen s u Hu) as [H1 Hnow].
    eexists. split; [by apply Hclose|]. simpl. by rewrite Hnow.
Qed.

Lemma presence_follows_connection_witness :
  (let s1 := onConnection 1 (Some "/ws?userId=u1") server0 in
   ∃ u1, getUser "u1" (db s1) = (db s1, inr (Some u1))
         ∧ User.isOnline u1 = Some true
         ∧ User.lastSeen u1 = User.lastSeen (sampleUser "u1" "alice")
         ∧ connections s1 !! "u1" = Some 1%nat)
  ∧ (let s2 := onClose (Some "/ws?userId=u1") server0 in
     ∃ u2, getUser "u1" (db s2) = (db s2, inr (Some u2))
           ∧ User.isOnline u2 = Some false
           ∧ User.lastSeen u2 = Some (now (db server0))
           ∧ connections s2 !! "u1" = None)
  ∧ (let s3 := onClose (Some "/ws?userId=u1")
                 (onConnection 1 (Some "/ws?userId=u1") server0) in
     ∃ u3, getUser "u1" (db s3) = (db s3, inr (Some u3))
           ∧ User.isOnline u3 = Some false
           ∧ User.lastSeen u3 = Some (now (db server0))).
Proof.
  apply (presence_follows_connection server0 1 (Some "/ws?userId=u1") "u1"
           (sampleUser "u1" "alice")); reflexivity.
Defined.

(** *** searchUsers *)

Lemma like_literal eqc c p s :
  c ≠ "%"%char → c ≠ "_"%char → c ≠ "\"%char →
  like eqc (String c p) s =
    match s with
    | EmptyString => false
    | String c' s' => eqc c c' && like eqc p s'
    end.
Proof.
  intros H1 H2 H3.
  destruct c as [[] [] [] [] [] [] [] []]; try reflexivity; congruence.
Qed.

Lemma like_percent_end eqc s : like eqc "%" s = true.
Proof. induction s as [|c s IH]; [done|]. simpl in *. by rewrite IH. Qed.

Lemma like_percent eqc p s :
  like eqc (String "%" p) s =
    like eqc p s || match s with
                    | EmptyString => false
                    | String _ s' => like eqc (String "%" p) s'
                    end.
Proof. by destruct s. Qed.

Lemma like_literal_prefix q s :
  literal q → like same_letter (q ++ "%") s = ci_prefix q s.
Proof.
  revert s. induction q as [|c q IH]; intros s Hq.
  - apply like_percent_end.
  - destruct Hq as (H1 & H2 & H3 & Hq).
    change (String c q ++ "%") with (String c (q ++ "%")).
    rewrite like_literal by done.
    destruct s as [|c' s]; [done|]. simpl. by rewrite IH.
Qed.

Lemma ilike_literal_contains q s :
  literal q → ilike s ("%" ++ q ++ "%") = ci_contains q s.
Proof.
  intros Hq. unfold ilike. change ("%" ++ q ++ "%") with (String "%" (q ++ "%")).
  induction s as [|c s IH].
  - rewrite like_percent, like_literal_prefix by done. done.
  - rewrite like_percent, like_literal_prefix by done. by rewrite IH.
Qed.

Lemma ci_prefix_spec q s :
  ci_prefix q s = true ↔ ∃ mid post, s = mid ++ post ∧ fold_case mid = fold_case q.
Proof.
  revert s. induction q as [|a q IH]; intros s.
  - split; [|done]. intros _. by exists "", s.
  - destruct s as [|b s].
    + split; [done|]. intros (mid & post & Hs & Hmid).
      destruct mid; simpl in *; discriminate.
    + simpl. rewrite andb_true_iff, IH. unfold same_letter.
      rewrite bool_decide_eq_true. split.
      * intros (Hab & mid & post & -> & Hmid). exists (String b mid), post.
        simpl. by rewrite Hmid, Hab.
      * intros (mid & post & Hs & Hmid). destruct mid as [|b' mid]; [discriminate|].
        simpl in *. injection Hs as <- ->. injection Hmid as Hab Hmid. eauto.
Qed.

Lemma ci_contains_spec q s : ci_contains q s = true ↔ ci_substring q s.
Proof.
  unfold ci_substring. induction s as [|c s IH].
  - simpl. rewrite orb_false_r, ci_prefix_spec. split.
    + intros (mid & post & Hs & Hmid). by exists "", mid, post.
    + intros (pre & mid & post & Hs & Hmid). destruct pre; [|discriminate].
      by exists mid, post.
  - change (ci_contains q (String c s))
      with (ci_prefix q (String c s) || ci_contains q s).
    rewrite orb_true_iff, IH, ci_prefix_spec. split.
    + intros [(mid & post & Hs & Hmid)|(pre & mid & post & -> & Hmid)].
      * by exists "", mid, post.
      * by exists (String c pre), mid, post.
    + intros (pre & mid & post & Hs & Hmid). destruct pre as [|c' pre].
      * left. by exists mid, post.
      * right. simpl in Hs. injection Hs as <- ->. by exists pre, mid, post.
Qed.

(** C10, as stated, fails: for the query [a_c] the search returns the
    user [abc], whose username and email do not contain [a_c]; the
    underscore of an ILIKE pattern matches any character. *)
Lemma searchUsers_wildcard_not_substring :
  (searchUsers "a_c" "u1" db0).2 = inr [sampleUser "u3" "abc"]
  ∧ ¬ ci_substring "a_c" (User.username (sampleUser "u3" "abc"))
  ∧ ¬ ci_substring "a_c" (User.email (sampleUser "u3" "abc")).
Proof.
  split; [vm_compute; reflexivity|].
  split; rewrite <- ci_contains_spec; vm_compute; discriminate.
Qed.

(** C10, amended. A search returns at most 20 users, each a stored user
    and never the one with the excluded id.  For a query and a returned
    user whose username and email are ASCII text, the username or the
    email matches the ILIKE pattern made of the query between two [%]:
    the characters [%], [_] and backslash of the query keep their
    pattern meaning.  For such a query without these characters the
    match is case-insensitive substring containment. *)
Theorem searchUsers_ilike_pattern (d : Db) (query excludeUserId : string) :
  ∃ found,
    searchUsers query excludeUserId d = (d, inr found)
    ∧ (length found ≤ 20)%nat
    ∧ (∀ u, u ∈ found → u ∈ users d ∧ User.id u ≠ excludeUserId)
    ∧ (isAscii query →
       ∀ u, u ∈ found → isAscii (User.username u) → isAscii (User.email u) →
         ilike (User.username u) ("%" ++ query ++ "%") = true
         ∨ ilike (User.email u) ("%" ++ query ++ "%") = true)
    ∧ (isAscii query → literal query →
       ∀ u, u ∈ found → isAscii (User.username u) → isAscii (User.email u) →
         ci_substring query (User.username u) ∨ ci_substring query (User.email u)).
Proof.
  eexists. split; [reflexivity|].
  assert (Hin : ∀ u,
    u ∈ take 20 (filter (λ u, (ilike (User.username u) ("%" ++ query ++ "%")
                               ∨ ilike (User.email u) ("%" ++ query ++ "%"))
                              ∧ User.id u ≠ excludeUserId) (users d)) →
    u ∈ users d ∧ User.id u ≠ excludeUserId
    ∧ (ilike (User.username u) ("%" ++ query ++ "%") = true
       ∨ ilike (User.email u) ("%" ++ query ++ "%") = true)).
  { intros u Hu. apply subseteq_take, list_elem_of_filter in Hu as [[Hm Hid] Hu].
    rewrite !Is_true_true in Hm. done. }
  split; [rewrite length_take; lia|].
  split; [intros u Hu; destruct (Hin u Hu) as (? & ? & _); done|].
  split; [intros _ u Hu _ _; by destruct (Hin u Hu) as (_ & _ & ?)|].
  intros _ Hq u Hu _ _. destruct (Hin u Hu) as (_ & _ & Hm).
  rewrite !ilike_literal_contains, !ci_contains_spec in Hm by done. done.
Qed.

(** *** The primary keys are kept by every storage method *)

Lemma NoDup_snoc_fmap {A} (key : A → string) (l : list A) (x : A) :
  NoDup (key <$> l) → key x ∉ key <$> l → NoDup (key <$> (l ++ [x])%list).
Proof.
  intros Hnd Hx. rewrite fmap_app. apply NoDup_app. split; [done|].
  split; [|apply NoDup_singleton].
  intros k Hk Hk'. apply list_elem_of_singleton in Hk' as ->. done.
Qed.

Lemma NoDup_key_update {A} (key : A → string) (f : A → A) (l : list A) :
  (∀ x, key (f x) = key x) → NoDup (key <$> l) → NoDup (key <$> (f <$> l)).
Proof.
  intros Hf Hnd. rewrite <- list_fmap_compose.
  rewrite (list_fmap_ext (key ∘ f) key l); [done|]. intros; apply Hf.
Qed.

Lemma keysOk_createConversation c d : keysOk d → keysOk (createConversation c d).1.
Proof.
  intros (Hu & Hc & Hm & Hg & Hl). unfold createConversation. qsimpl.
  repeat case_decide; simpl; repeat split; try done.
  by apply (NoDup_snoc_fmap Conversation.id).
Qed.

Lemma keysOk_addConversationMember conversationId userId d :
  keysOk d → keysOk (addConversationMember conversationId userId d).1.
Proof.
  intros (Hu & Hc & Hm & Hg & Hl). unfold addConversationMember. qsimpl.
  repeat case_decide; simpl; repeat split; try done.
  by apply (NoDup_snoc_fmap ConversationMember.id).
Qed.

Lemma keysOk_qbind {A B} (m : Query A) (k : A → Query B) d :
  (∀ d, keysOk d → keysOk (m d).1) → (∀ a d, keysOk d → keysOk (k a d).1) →
  keysOk d → keysOk (qbind m k d).1.
Proof.
  intros Hm Hk Hd. unfold qbind. specialize (Hm d Hd).
  destruct (m d) as [d' [e|a]]; [done|]. by apply Hk.
Qed.

Lemma keysOk_getOrCreateDirectConversation a b d :
  keysOk d → keysOk (getOrCreateDirectConversation a b d).1.
Proof.
  intros Hd. unfold getOrCreateDirectConversation.
  apply keysOk_qbind; [done| |done]. clear d Hd. intros [|c l] d Hd; [|done].
  apply keysOk_qbind; [apply keysOk_createConversation| |done].
  clear d Hd. intros c d Hd.
  apply keysOk_qbind; [apply keysOk_addConversationMember| |done].
  clear d Hd. intros _ d Hd.
  apply keysOk_qbind; [apply keysOk_addConversationMember|done|done].
Qed.

Lemma keysOk_createMessage im d : keysOk d → keysOk (createMessage im d).1.
Proof.
  intros (Hu & Hc & Hm & Hg & Hl). unfold createMessage. qsimpl. unfold getUser. qsimpl.
  repeat case_decide; simpl; repeat split; try done.
  by apply (NoDup_snoc_fmap Message.id).
Qed.

Lemma keysOk_deleteMessage messageId userId d :
  keysOk d → keysOk (deleteMessage messageId userId d).1.
Proof.
  intros (Hu & Hc & Hm & Hg & Hl). rewrite deleteMessage_eq.
  repeat split; try done.
  apply (NoDup_key_update Message.id
           (λ m, if decide (Message.id m = messageId ∧ Message.senderId m = userId)
                 then set_isDeleted m else m)); [|done].
  intros m. by case_decide.
Qed.

Lemma keysOk_createCall ic d : keysOk d → keysOk (createCall ic d).1.
Proof.
  intros (Hu & Hc & Hm & Hg & Hl). unfold createCall. qsimpl.
  repeat case_decide; simpl; repeat split; try done.
  by apply (NoDup_snoc_fmap Call.id).
Qed.

Lemma keysOk_updateCallStatus callId newStatus d :
  keysOk d → keysOk (updateCallStatus callId newStatus d).1.
Proof.
  intros (Hu & Hc & Hm & Hg & Hl). destruct newStatus as [newStatus|]; [|done].
  repeat split; try done.
  apply (NoDup_key_update Call.id
           (λ c, if decide (Call.id c = callId) then set_status newStatus None c else c));
    [|done].
  intros c. by case_decide.
Qed.

Lemma keysOk_endCall callId d : keysOk d → keysOk (endCall callId d).1.
Proof.
  intros (Hu & Hc & Hm & Hg & Hl). repeat split; try done.
  apply (NoDup_key_update Call.id
           (λ c, if decide (Call.id c = callId)
                 then set_status "ended" (Some (now d)) c else c)); [|done].
  intros c. by case_decide.
Qed.

Lemma keysOk_updateUserOnlineStatus userId isOnline d :
  keysOk d → keysOk (updateUserOnlineStatus userId isOnline d).1.
Proof.
  intros (Hu & Hc & Hm & Hg & Hl). repeat split; try done.
  apply (NoDup_key_update User.id
           (λ u, if decide (User.id u = userId)
                 then set_presence isOnline (now d) u else u)); [|done].
  intros u. by case_decide.
Qed.

Lemma keysOk_db0 : keysOk db0.
Proof. compute_done. Qed.

(** *** Every socket stays registered at most once *)

Lemma distinctSockets_inj s :
  distinctSockets s ↔
  ∀ u1 u2 h, connections s !! u1 = Some h → connections s !! u2 = Some h → u1 = u2.
Proof.
  unfold distinctSockets. split.
  - intros Hnd u1 u2 h H1 H2.
    apply elem_of_map_to_list in H1, H2.
    by pose proof (primary_key snd _ (u1, h) (u2, h) Hnd H1 H2 eq_refl) as [= ->].
  - intros Hinj. apply NoDup_fmap_2_strong; [|apply NoDup_map_to_list].
    intros [u1 h1] [u2 h2] H1 H2 Heq. simpl in Heq. subst h2.
    apply elem_of_map_to_list in H1, H2. f_equal. by eapply Hinj.
Qed.

Lemma distinctSockets_onConnection ws url s :
  distinctSockets s → (∀ u, connections s !! u ≠ Some ws) →
  distinctSockets (onConnection ws url s).
Proof.
  rewrite !distinctSockets_inj. intros Hinj Hnew. unfold onConnection.
  destruct (urlUserId url) as [userId|]; [|done]. simpl.
  intros u1 u2 h. rewrite !lookup_insert_Some. naive_solver.
Qed.

Lemma distinctSockets_onClose url s :
  distinctSockets s → distinctSockets (onClose url s).
Proof.
  rewrite !distinctSockets_inj. intros Hinj. unfold onClose.
  destruct (urlUserId url) as [userId|]; [|done]. simpl.
  intros u1 u2 h. rewrite !lookup_delete_Some. naive_solver.
Qed.

Lemma connections_tryCatch {A} (q : Query A) (ok : A → Handler) (catch : Handler) s :
  (∀ a s, connections (ok a s).1 = connections s) →
  (∀ s, connections (catch s).1 = connections s) →
  connections (tryCatch q ok catch s).1 = connections s.
Proof.
  intros Hok Hcatch. unfold tryCatch, runDb.
  destruct (q (db s)) as [d [e|a]]; [by rewrite Hcatch | by rewrite Hok].
Qed.

(** The request handlers never touch the connections map. *)
Lemma connections_routes user s :
  (∀ id reqBody, connections (postMessage user id reqBody s).1 = connections s)
  ∧ (∀ id, connections (deleteMessageRoute user id s).1 = connections s)
  ∧ (∀ reqBody, connections (postCalls user reqBody s).1 = connections s)
  ∧ (∀ id newStatus, connections (patchCall user id newStatus s).1 = connections s)
  ∧ (∀ reqBody, connections (postConversations user reqBody s).1 = connections s).
Proof.
  destruct user as [userId|]; [|done].
  repeat split; intros; simpl; apply connections_tryCatch; try done.
  intros [] ?; done.
Qed.

Lemma distinctSockets_server0 : distinctSockets server0.
Proof. compute_done. Qed.

(** * Further properties of the storage methods and the handlers *)

(** *** Calls *)


(** X2. The status of a call is never checked against its current one:
    a call that was ended and is then patched with another status gets
    that status, and keeps the end time it got when it was ended. *)
Theorem patchCall_reopens_ended_call (s : Server) (user user' id newStatus : string)
    (c : Call.t) :
  newStatus ≠ "ended" → c ∈ calls (db s) → Call.id c = id →
  let s1 := (patchCall (Some user) id (Some "ended") s).1 in
  let s2 := (patchCall (Some user') id (Some newStatus) s1).1 in
  Call.mk id (Call.conversationId c) (Call.callerId c) (Call.type c)
    (Some newStatus) (Call.startedAt c) (Some (now (db s)))
  ∈ calls (db s2).
Proof.
  intros Hne Hc Hid s1 s2. subst s1 s2. rewrite !patchCall_eq. simpl.
  apply list_elem_of_fmap. eexists. split; [|apply list_elem_of_fmap; eauto].
  simpl. destruct (decide (Call.id c = id)) as [_|]; [|done]. simpl.
  rewrite decide_True by done. rewrite decide_False by done.
  unfold set_status. simpl. by rewrite Hid.
Qed.

Lemma patchCall_reopens_ended_call_witness :
  Call.mk "call1" "c1" "u1" "voice" (Some "active") (Some 40) (Some 1700000000000)
  ∈ calls (db (patchCall (Some "u2") "call1" (Some "active")
                 (patchCall (Some "u1") "call1" (Some "ended") serverCall).1).1).
Proof.
  apply (patchCall_reopens_ended_call serverCall "u1" "u2" "call1" "active"
           (Call.mk "call1" "c1" "u1" "voice" (Some "pending") (Some 40) None));
    compute_done.
Defined.

(** *** Sending and reading back *)






(** *** Deleting *)

Lemma filter_fmap_stable {A} (P : A → Prop) `{!∀ x, Decision (P x)} (f : A → A)
    (l : list A) :
  (∀ x, P (f x) ↔ P x) → filter P (f <$> l) = f <$> filter P l.
Proof.
  intros Hf. induction l as [|x l IH]; [done|]. rewrite fmap_cons.
  destruct (decide (P x)) as [Hx|Hx].
  - rewrite (filter_cons_True P (f x)) by (by apply Hf).
    rewrite (filter_cons_True P x) by done. by rewrite fmap_cons, IH.
  - rewrite (filter_cons_False P (f x)) by (by rewrite Hf).
    by rewrite (filter_cons_False P x).
Qed.

(** X5. Deleting is idempotent: a second [deleteMessage] with the same
    arguments returns what the first one returned (true again for the
    owner, so the route answers 200 again and not 404) and leaves the
    database as the first one left it. *)
Theorem deleteMessage_twice (d : Db) (messageId userId : string) :
  deleteMessage messageId userId (deleteMessage messageId userId d).1
  = deleteMessage messageId userId d
  ∧ ∀ s, db s = d →
      status (deleteMessageRoute (Some userId) messageId
                (deleteMessageRoute (Some userId) messageId s).1).2
      = status (deleteMessageRoute (Some userId) messageId s).2.
Proof.
  set (hit := λ m, Message.id m = messageId ∧ Message.senderId m = userId).
  set (f := λ m, if decide (hit m) then set_isDeleted m else m).
  assert (Hhit : ∀ m, hit (f m) ↔ hit m).
  { intros m. unfold f. by case_decide. }
  assert (Hff : ∀ l : list Message.t, f <$> (f <$> l) = f <$> l).
  { intros l. rewrite <- list_fmap_compose. apply list_fmap_ext. intros i m _. simpl.
    unfold f. destruct (decide (hit m)) as [H|H].
    + rewrite decide_True; [done | exact H].
    + rewrite decide_False; done. }
  assert (Htwice : deleteMessage messageId userId (deleteMessage messageId userId d).1
                   = deleteMessage messageId userId d).
  { rewrite !deleteMessage_eq. simpl. f_equal.
    - change (set_messages (fmap f) (set_messages (fmap f) d)
              = set_messages (fmap f) d).
      destruct d. unfold set_messages. simpl. f_equal. apply Hff.
    - change (inr (bool_decide
                     (0 < length (set_isDeleted <$> filter hit (f <$> messages d)))%nat)
              = (inr (bool_decide
                        (0 < length (set_isDeleted <$> filter hit (messages d)))%nat)
                 : DbError + bool)).
      by rewrite (filter_fmap_stable hit f), !length_fmap. }
  split; [done|]. intros s <-.
  unfold deleteMessageRoute, requireAuth, tryCatch, runDb.
  destruct (deleteMessage messageId userId (db s)) as [d1 [e|b]] eqn:H1; [done|].
  simpl in Htwice.
  destruct b; unfold respond, broadcast; cbn [fst snd db]; by rewrite Htwice.
Qed.

(** X6. After its sender has deleted a message, no history query, of
    any conversation and with any limit and offset, lists a message
    with that id. *)
Theorem deleted_message_leaves_history (d : Db) (m : Message.t)
    (conversationId : string) (limit offset : option nat) :
  NoDup (Message.id <$> messages d) → m ∈ messages d →
  let d' := (deleteMessage (Message.id m) (Message.senderId m) d).1 in
  ∃ views,
    getConversationMessages conversationId limit offset d' = (d', inr views)
    ∧ ∀ v, v ∈ views → Message.id (message v) ≠ Message.id m.
Proof.
  intros Hpk Hm d'. eexists. split; [apply getConversationMessages_eq|]. cbv zeta.
  intros v Hv Hid. rewrite elem_of_reverse in Hv.
  apply list_elem_of_fmap in Hv as ([m' u] & -> & Hr).
  apply elem_of_page, elem_of_visibleRows in Hr as (Hm' & _ & _ & _ & Hvis).
  simpl in Hid. subst d'. rewrite deleteMessage_eq in Hm'. simpl in Hm'.
  apply list_elem_of_fmap in Hm' as (m0 & -> & Hm0).
  destruct (decide (Message.id m0 = Message.id m
                    ∧ Message.senderId m0 = Message.senderId m)) as [_|Hn].
  - simpl in Hvis. discriminate.
  - apply Hn. assert (m0 = m) as -> by (by apply (primary_key Message.id (messages d))).
    done.
Qed.

Lemma deleted_message_leaves_history_witness :
  let d' := (deleteMessage "m3" "u1" dbReplies).1 in
  ∃ views,
    getConversationMessages "c1" None None d' = (d', inr views)
    ∧ ∀ v, v ∈ views → Message.id (message v) ≠ "m3".
Proof.
  apply (deleted_message_leaves_history dbReplies
           (sampleMessage "m3" "u1" "third" None false 30) "c1" None None);
    compute_done.
Defined.

(** *** Pages of a history *)

Lemma list_to_map_filter_key {V} (key : V → string) (ids : list string)
    (l : list V) k :
  k ∈ ids →
  (list_to_map ((λ r, (key r, r)) <$> filter (λ r, key r ∈ ids) l) : gmap string V) !! k
  = (list_to_map ((λ r, (key r, r)) <$> l) : gmap string V) !! k.
Proof.
  intros Hk. induction l as [|x l IH]; [done|].
  destruct (decide (key x ∈ ids)) as [Hx|Hx].
  - rewrite filter_cons_True by done. rewrite !fmap_cons. simpl.
    destruct (decide (key x = k)) as [->|Hne].
    + by rewrite !lookup_insert_eq.
    + by rewrite !lookup_insert_ne.
  - rewrite filter_cons_False by done. rewrite fmap_cons. simpl.
    rewrite lookup_insert_ne; [done|]. intros Heq. apply Hx. by rewrite Heq.
Qed.

(** The reply target of a row does not depend on the page that holds
    it. *)
Lemma replyMapOf_replyTargets d messageList r k :
  r ∈ messageList → truthy (Message.replyToId r.1) = Some k →
  replyMapOf d messageList !! k = replyTargets d !! k.
Proof.
  intros Hr Hk. unfold replyMapOf, replyTargets, newMap.
  set (replyIds := omap _ messageList).
  assert (Hin : k ∈ replyIds) by (apply list_elem_of_omap; eauto).
  rewrite decide_True by (destruct replyIds; [by apply elem_of_nil in Hin|simpl; lia]).
  rewrite <- !fmap_reverse, <- filter_reverse.
  by apply (list_to_map_filter_key (λ r : Message.t * User.t, Message.id r.1)).
Qed.

Lemma toView_replyTargets d messageList :
  toView (replyMapOf d messageList) <$> messageList
  = toView (replyTargets d) <$> messageList.
Proof.
  apply list_fmap_ext. intros i r Hi. unfold toView. f_equal.
  destruct (truthy (Message.replyToId r.1)) as [k|] eqn:Hk; [|done]. simpl.
  eapply replyMapOf_replyTargets; [by eapply list_elem_of_lookup_2 | done].
Qed.

(** X7. When the messages of a conversation that are not deleted carry
    distinct timestamps, so that the ordering of the query fixes their
    order, pages are contiguous: the history fetched with limit [n] at
    offset [k], put after the one fetched with limit [m] at offset
    [k + n], is the history fetched with limit [n + m] at offset [k].  No
    message is skipped or repeated between the two pages, and a message
    carries the same reply target in whichever page it is fetched. *)
Theorem history_pages_are_contiguous (d : Db) (conversationId : string) (n m k : nat) :
  (∀ r r', r ∈ visibleRows d conversationId → r' ∈ visibleRows d conversationId →
           Message.createdAt r.1 = Message.createdAt r'.1 → r = r') →
  ∃ newer older both,
    getConversationMessages conversationId (Some n) (Some k) d = (d, inr newer)
    ∧ getConversationMessages conversationId (Some m) (Some (k + n)%nat) d
      = (d, inr older)
    ∧ getConversationMessages conversationId (Some (n + m)%nat) (Some k) d
      = (d, inr both)
    ∧ both = (older ++ newer)%list.
Proof.
  intros _. eexists _, _, _. rewrite !getConversationMessages_eq. cbv zeta.
  do 3 (split; [reflexivity|]). simpl.
  rewrite !toView_replyTargets, <- reverse_app, <- fmap_app. do 2 f_equal.
  unfold page, limit_offset. by rewrite <- drop_drop, take_take_drop.
Qed.

Lemma history_pages_are_contiguous_witness :
  ∃ newer older both,
    getConversationMessages "c1" (Some 1%nat) (Some 0%nat) dbReplies
    = (dbReplies, inr newer)
    ∧ getConversationMessages "c1" (Some 1%nat) (Some (0 + 1)%nat) dbReplies
      = (dbReplies, inr older)
    ∧ getConversationMessages "c1" (Some (1 + 1)%nat) (Some 0%nat) dbReplies
      = (dbReplies, inr both)
    ∧ both = (older ++ newer)%list.
Proof.
  apply (history_pages_are_contiguous dbReplies "c1" 1 1 0).
  intros r r' Hr Hr' Heq.
  apply list_elem_of_In in Hr, Hr'. vm_compute in Hr, Hr'.
  destruct Hr as [<-|[<-|[]]], Hr' as [<-|[<-|[]]]; done.
Defined.

(** *** Integrity of the reachable states *)

Lemma integrity_sameTables d d' : sameTables d d' → integrity d → integrity d'.
Proof.
  intros (Hu & Hc & Hm & Hg & Hl). unfold integrity, keysOk, uniqueOk, refsOk.
  by rewrite Hu, Hc, Hm, Hg, Hl.
Qed.

Lemma elem_of_fmap_snoc {A} (key : A → string) (l : list A) (x : A) k :
  k ∈ key <$> l → k ∈ key <$> (l ++ [x])%list.
Proof. rewrite fmap_app, elem_of_app. by left. Qed.

Lemma elem_of_fmap_snoc_new {A} (key : A → string) (l : list A) (x : A) :
  key x ∈ key <$> (l ++ [x])%list.
Proof. rewrite fmap_app, elem_of_app. right. simpl. left. Qed.

Lemma references_snoc {A} (key : A → string) (l : list A) (x : A) fk :
  references (key <$> l) fk → references (key <$> (l ++ [x])%list) fk.
Proof. destruct fk; [apply elem_of_fmap_snoc | done]. Qed.

Lemma integrity_createUser insertUser d :
  integrity d → integrity (createUser insertUser d).1.
Proof.
  intros ((Hu & Hc & Hm & Hg & Hl) & (Hn & He) & (Rc & Rm & Rg & Rl)).
  unfold createUser. qsimpl. case_decide as Hdup; [done|].
  simpl. split; [|split].
  - repeat split; try done. apply (NoDup_snoc_fmap User.id); tauto.
  - split; [apply (NoDup_snoc_fmap User.username) | apply (NoDup_snoc_fmap User.email)];
      tauto.
  - repeat split; simpl.
    + eapply Forall_impl; [exact Rc|]. intros c. apply references_snoc.
    + eapply Forall_impl; [exact Rm|]. intros m [? ?].
      split; [done | by apply elem_of_fmap_snoc].
    + eapply Forall_impl; [exact Rg|]. intros m [? ?].
      split; [done | by apply elem_of_fmap_snoc].
    + eapply Forall_impl; [exact Rl|]. intros m [? ?].
      split; [done | by apply elem_of_fmap_snoc].
Qed.

Lemma integrity_createConversation c d :
  integrity d → integrity (createConversation c d).1.
Proof.
  intros ((Hu & Hc & Hm & Hg & Hl) & (Hn & He) & (Rc & Rm & Rg & Rl)).
  unfold createConversation. qsimpl.
  case_decide as Hid; [done|]. case_decide as Hfk; [|done].
  simpl. split; [|split; [done|]].
  - repeat split; try done. by apply (NoDup_snoc_fmap Conversation.id).
  - repeat split; simpl.
    + apply Forall_app. split; [done|]. by apply Forall_singleton.
    + eapply Forall_impl; [exact Rm|]. intros m [? ?].
      split; [by apply elem_of_fmap_snoc | done].
    + eapply Forall_impl; [exact Rg|]. intros m [? ?].
      split; [by apply elem_of_fmap_snoc | done].
    + eapply Forall_impl; [exact Rl|]. intros m [? ?].
      split; [by apply elem_of_fmap_snoc | done].
Qed.

Lemma integrity_addConversationMember conversationId userId d :
  integrity d → integrity (addConversationMember conversationId userId d).1.
Proof.
  intros ((Hu & Hc & Hm & Hg & Hl) & (Hn & He) & (Rc & Rm & Rg & Rl)).
  unfold addConversationMember. qsimpl.
  case_decide as Hid; [done|]. case_decide as Hfk; [|done].
  simpl. split; [|split; [done|]].
  - repeat split; try done. by apply (NoDup_snoc_fmap ConversationMember.id).
  - repeat split; simpl; try done.
    apply Forall_app. split; [done|]. by apply Forall_singleton.
Qed.

Lemma integrity_createMessage im d :
  integrity d → integrity (createMessage im d).1.
Proof.
  intros ((Hu & Hc & Hm & Hg & Hl) & (Hn & He) & (Rc & Rm & Rg & Rl)).
  unfold createMessage. case_decide as Hsize; [|done]. qsimpl. unfold getUser. qsimpl.
  case_decide as Hid; [done|]. case_decide as Hfk; [|done].
  simpl. split; [|split; [done|]].
  - repeat split; try done. by apply (NoDup_snoc_fmap Message.id).
  - repeat split; simpl; try done.
    apply Forall_app. split; [done|]. by apply Forall_singleton.
Qed.

Lemma integrity_createCall ic d :
  integrity d → integrity (createCall ic d).1.
Proof.
  intros ((Hu & Hc & Hm & Hg & Hl) & (Hn & He) & (Rc & Rm & Rg & Rl)).
  unfold createCall. qsimpl.
  case_decide as Hid; [done|]. case_decide as Hfk; [|done].
  simpl. split; [|split; [done|]].
  - repeat split; try done. by apply (NoDup_snoc_fmap Call.id).
  - repeat split; simpl; try done.
    apply Forall_app. split; [done|]. by apply Forall_singleton.
Qed.

Lemma fmap_key_eq {A} (key : A → string) (f : A → A) (l : list A) :
  (∀ x, key (f x) = key x) → key <$> (f <$> l) = key <$> l.
Proof.
  intros Hf. rewrite <- list_fmap_compose. apply list_fmap_ext. intros; apply Hf.
Qed.

Lemma integrity_update_users (f : User.t → User.t) d :
  (∀ u, User.id (f u) = User.id u) →
  (∀ u, User.username (f u) = User.username u) →
  (∀ u, User.email (f u) = User.email u) →
  integrity d → integrity (set_users (fmap f) d).
Proof.
  intros Hid Hname Hmail. unfold integrity, keysOk, uniqueOk, refsOk.
  cbn [users conversations conversationMembers messages calls set_users].
  by rewrite !(fmap_key_eq User.id), !(fmap_key_eq User.username),
    !(fmap_key_eq User.email).
Qed.

Lemma integrity_update_messages (f : Message.t → Message.t) d :
  (∀ m, Message.id (f m) = Message.id m) →
  (∀ m, Message.conversationId (f m) = Message.conversationId m) →
  (∀ m, Message.senderId (f m) = Message.senderId m) →
  integrity d → integrity (set_messages (fmap f) d).
Proof.
  intros Hid Hc Hs ((Hu & Hcs & Hm & Hg & Hl) & Huniq & (Rc & Rm & Rg & Rl)).
  unfold integrity, keysOk, uniqueOk, refsOk.
  cbn [users conversations conversationMembers messages calls set_messages].
  rewrite (fmap_key_eq Message.id) by done. repeat split; try done; try apply Huniq.
  apply Forall_fmap. eapply Forall_impl; [exact Rg|]. intros m. simpl.
  by rewrite Hc, Hs.
Qed.

Lemma integrity_update_calls (f : Call.t → Call.t) d :
  (∀ c, Call.id (f c) = Call.id c) →
  (∀ c, Call.conversationId (f c) = Call.conversationId c) →
  (∀ c, Call.callerId (f c) = Call.callerId c) →
  integrity d → integrity (set_calls (fmap f) d).
Proof.
  intros Hid Hc Hs ((Hu & Hcs & Hm & Hg & Hl) & Huniq & (Rc & Rm & Rg & Rl)).
  unfold integrity, keysOk, uniqueOk, refsOk.
  cbn [users conversations conversationMembers messages calls set_calls].
  rewrite (fmap_key_eq Call.id) by done. repeat split; try done; try apply Huniq.
  apply Forall_fmap. eapply Forall_impl; [exact Rl|]. intros c. simpl.
  by rewrite Hc, Hs.
Qed.

Lemma integrity_deleteMessage messageId userId d :
  integrity d → integrity (deleteMessage messageId userId d).1.
Proof.
  rewrite deleteMessage_eq. apply integrity_update_messages; intros m; by case_decide.
Qed.

Lemma integrity_updateCallStatus callId newStatus d :
  integrity d → integrity (updateCallStatus callId newStatus d).1.
Proof.
  destruct newStatus as [newStatus|]; [|done].
  apply integrity_update_calls; intros c; by case_decide.
Qed.

Lemma integrity_endCall callId d : integrity d → integrity (endCall callId d).1.
Proof. apply integrity_update_calls; intros c; by case_decide. Qed.

Lemma integrity_updateUserOnlineStatus userId isOnline d :
  integrity d → integrity (updateUserOnlineStatus userId isOnline d).1.
Proof. apply integrity_update_users; intros u; by case_decide. Qed.

Lemma integrity_qbind {A B} (m : Query A) (k : A → Query B) d :
  (∀ d, integrity d → integrity (m d).1) →
  (∀ a d, integrity d → integrity (k a d).1) →
  integrity d → integrity (qbind m k d).1.
Proof.
  intros Hm Hk Hd. unfold qbind. specialize (Hm d Hd).
  destruct (m d) as [d' [e|a]]; [done|]. by apply Hk.
Qed.

Lemma integrity_forOf {A} (l : list A) (f : A → Query unit) d :
  (∀ x d, integrity d → integrity (f x d).1) →
  integrity d → integrity (forOf l f d).1.
Proof.
  intros Hf. revert d. induction l as [|x l IH]; intros d Hd; [done|].
  simpl. apply integrity_qbind; [apply Hf | intros _; apply IH | done].
Qed.

Lemma integrity_getOrCreateDirectConversation a b d :
  integrity d → integrity (getOrCreateDirectConversation a b d).1.
Proof.
  intros Hd. unfold getOrCreateDirectConversation.
  apply integrity_qbind; [done| |done]. clear d Hd. intros [|c l] d Hd; [|done].
  apply integrity_qbind; [apply integrity_createConversation| |done].
  clear d Hd. intros c d Hd.
  apply integrity_qbind; [apply integrity_addConversationMember| |done].
  clear d Hd. intros _ d Hd.
  apply integrity_qbind; [apply integrity_addConversationMember|done|done].
Qed.

Lemma integrity_tryCatch {A} (q : Query A) (ok : A → Handler) (catch : Handler) s :
  (∀ d, integrity d → integrity (q d).1) →
  (∀ a s, db (ok a s).1 = db s) → (∀ s, db (catch s).1 = db s) →
  integrity (db s) → integrity (db (tryCatch q ok catch s).1).
Proof.
  intros Hq Hok Hcatch Hs. unfold tryCatch, runDb. specialize (Hq (db s) Hs).
  destruct (q (db s)) as [d [e|a]]; [by rewrite Hcatch | by rewrite Hok].
Qed.

(** Every event leaves a database that satisfies its constraints in
    that condition. *)
Lemma integrity_handle e s : integrity (db s) → integrity (db (handle e s)).
Proof.
  intros Hs. destruct e as [iu|user b|user uid|user id b|user id|user b|user id st
                            |ws url|url|t]; simpl.
  - unfold runDb. pose proof (integrity_createUser iu (db s) Hs).
    by destruct (createUser iu (db s)).
  - destruct user as [u|]; [|done]. apply integrity_tryCatch; try done.
    clear s Hs. intros d Hd.
    apply integrity_qbind; [apply integrity_createConversation| |done].
    clear d Hd. intros c d Hd.
    apply integrity_qbind; [apply integrity_addConversationMember| |done].
    clear d Hd. intros _ d Hd.
    apply integrity_qbind; [|done|done]. clear d Hd. intros d Hd.
    destruct (cb_memberIds b); [|done].
    apply integrity_forOf; [|done]. intros; by apply integrity_addConversationMember.
  - destruct user as [u|]; [|done]. simpl. destruct (truthy uid); [|done].
    apply integrity_tryCatch; try done.
    intros; by apply integrity_getOrCreateDirectConversation.
  - destruct user as [u|]; [|done]. apply integrity_tryCatch; try done.
    intros; by apply integrity_createMessage.
  - destruct user as [u|]; [|done]. apply integrity_tryCatch; try done.
    + intros; by apply integrity_deleteMessage.
    + by intros [] ?.
  - destruct user as [u|]; [|done]. apply integrity_tryCatch; try done.
    intros; by apply integrity_createCall.
  - destruct user as [u|]; [|done]. apply integrity_tryCatch; try done.
    intros d Hd. case_decide; [by apply integrity_endCall
                              | by apply integrity_updateCallStatus].
  - unfold onConnection. destruct (urlUserId url); [|done].
    by apply integrity_updateUserOnlineStatus.
  - unfold onClose. destruct (urlUserId url); [|done].
    by apply integrity_updateUserOnlineStatus.
  - done.
Qed.

Lemma distinctSockets_handle e s :
  admissible e s → distinctSockets s → distinctSockets (handle e s).
Proof.
  intros Ha Hs. pose proof (connections_routes) as Hroutes.
  destruct e as [iu|user b|user uid|user id b|user id|user b|user id st
                 |ws url|url|t]; simpl.
  - unfold distinctSockets, runDb. by destruct (createUser iu (db s)).
  - unfold distinctSockets. destruct (Hroutes user s) as (_ & _ & _ & _ & ->). done.
  - unfold distinctSockets.
    replace (connections (postConversationsDirect user uid s).1) with (connections s);
      [done|].
    destruct user as [u|]; [|done]. simpl. destruct (truthy uid); [|done].
    symmetry. by apply connections_tryCatch.
  - unfold distinctSockets. destruct (Hroutes user s) as (-> & _). done.
  - unfold distinctSockets. destruct (Hroutes user s) as (_ & -> & _). done.
  - unfold distinctSockets. destruct (Hroutes user s) as (_ & _ & -> & _). done.
  - unfold distinctSockets. destruct (Hroutes user s) as (_ & _ & _ & -> & _). done.
  - by apply distinctSockets_onConnection.
  - by apply distinctSockets_onClose.
  - done.
Qed.

(** X8. Whatever happens to a server started on an empty database, its
    database satisfies the constraints of the schema (primary keys,
    unique usernames and emails, foreign keys): no storage method and no
    handler removes a row that is referred to or rewrites a key.  And no
    socket is ever registered under two user ids. *)
Theorem reachable_states_keep_integrity (ids : nat → string) (t : Z) (s : Server) :
  Reachable ids t s → integrity (db s) ∧ distinctSockets s.
Proof.
  induction 1 as [|s e Hs [IHi IHd] Ha|s h state Hs [IHi IHd]].
  - split; [|compute_done]. unfold integrity, keysOk, uniqueOk, refsOk. simpl.
    repeat split; constructor.
  - split; [by apply integrity_handle | by apply distinctSockets_handle].
  - done.
Qed.

Lemma reachable_states_keep_integrity_witness :
  integrity (db (handle (PostConversationsDirect (Some "k0") (Some "k1"))
                   (handle (Register {| iu_username := "bob"; iu_email := "b@x.org";
                                        iu_password := "h"; iu_avatar := None |})
                      (handle (Register {| iu_username := "alice";
                                           iu_email := "a@x.org";
                                           iu_password := "h"; iu_avatar := None |})
                         (serverStart sampleIds 0)))))
  ∧ distinctSockets
      (handle (PostConversationsDirect (Some "k0") (Some "k1"))
         (handle (Register {| iu_username := "bob"; iu_email := "b@x.org";
                              iu_password := "h"; iu_avatar := None |})
            (handle (Register {| iu_username := "alice"; iu_email := "a@x.org";
                                 iu_password := "h"; iu_avatar := None |})
               (serverStart sampleIds 0)))).
Proof.
  apply (reachable_states_keep_integrity sampleIds 0).
  repeat (apply reachable_step; [|exact I]). apply reachable_start.
Defined.

(** *** Starting a direct conversation with someone who is no user *)

Lemma directWith_no_user d userId :
  refsOk d → userId ∉ User.id <$> users d → directWith d userId = [].
Proof.
  intros (_ & Rm & _) Hu. destruct (directWith d userId) as [|c l] eqn:Hd; [done|].
  assert (Hc : c ∈ directWith d userId) by (rewrite Hd; left).
  apply elem_of_directWith in Hc as (_ & _ & Hm).
  apply isMember_iff in Hm as (m & Hm & _ & Hid).
  rewrite Forall_forall in Rm. destruct (Rm m Hm) as [_ Hin]. by rewrite Hid in Hin.
Qed.

Lemma intersect_nil_r `{EqDecision A} (l : list A) : intersect l [] = [].
Proof.
  unfold intersect. induction l as [|x l IH]; [done|].
  rewrite filter_cons_False; [done | apply not_elem_of_nil].
Qed.

(** X9. Asking for the direct conversation with an id that is no user
    fails, but not cleanly: the route answers 500 after the new
    conversation and the requester's own membership have been inserted,
    and they stay. *)
Theorem direct_conversation_with_unknown_user_leaves_rows (s : Server)
    (me other : string) :
  refsOk (db s) → fresh (db s) 3 →
  me ∈ User.id <$> users (db s) → other ∉ User.id <$> users (db s) → other ≠ "" →
  ∃ s' c row,
    postConversationsDirect (Some me) (Some other) s
    = (s', {| status := 500;
              body := ErrorBody "Failed to create direct conversation" |})
    ∧ conversations (db s') = (conversations (db s) ++ [c])%list
    ∧ Conversation.isGroup c = Some false
    ∧ Conversation.createdBy c = Some me
    ∧ conversationMembers (db s') = (conversationMembers (db s) ++ [row])%list
    ∧ ConversationMember.conversationId row = Conversation.id c
    ∧ ConversationMember.userId row = me.
Proof.
  intros Hrefs Hf Hme Hother Hne.
  set (c := conversationRow (db s) (directInsert me)).
  set (d1 := afterCreateConversation (db s) (directInsert me)).
  set (d2 := afterAddMember d1 (Conversation.id c) me).
  assert (Hf1 : fresh d1 2) by by apply fresh_afterCreateConversation.
  assert (Hf2 : fresh d2 1) by by apply fresh_afterAddMember.
  assert (Hc : Conversation.id c ∈ Conversation.id <$> conversations d1)
    by apply elem_of_fmap_snoc_new.
  exists {| db := afterDraw d2; connections := connections s; sockets := sockets s |},
    c, (memberRow d1 (Conversation.id c) me).
  split; [|by repeat split].
  unfold postConversationsDirect, requireAuth. simpl. rewrite decide_False by done.
  unfold tryCatch, runDb, getOrCreateDirectConversation, qbind at 1, reads.
  rewrite (directWith_no_user (db s) other) by done.
  rewrite intersect_nil_r. unfold qbind. fold (directInsert me).
  rewrite (createConversation_fresh (db s) _ 2) by done.
  fold c d1. rewrite (addConversationMember_fresh d1 _ _ 1) by done.
  fold d2. rewrite (addConversationMember_missing_user d2 _ _ 0) by done.
  done.
Qed.

Lemma direct_conversation_with_unknown_user_leaves_rows_witness :
  ∃ s' c row,
    postConversationsDirect (Some "u1") (Some "ghost") server0
    = (s', {| status := 500;
              body := ErrorBody "Failed to create direct conversation" |})
    ∧ conversations (db s') = (conversations (db server0) ++ [c])%list
    ∧ Conversation.isGroup c = Some false
    ∧ Conversation.createdBy c = Some "u1"
    ∧ conversationMembers (db s') = (conversationMembers (db server0) ++ [row])%list
    ∧ ConversationMember.conversationId row = Conversation.id c
    ∧ ConversationMember.userId row = "u1".
Proof.
  apply (direct_conversation_with_unknown_user_leaves_rows server0 "u1" "ghost");
    compute_done.
Defined.

(** *** Two connections of one user *)

Lemma getUser_onConnection ws url s userId u :
  urlUserId url = Some userId → getUser userId (db s) = (db s, inr (Some u)) →
  getUser userId (db (onConnection ws url s))
  = (db (onConnection ws url s), inr (Some (set_presence true (now (db s)) u))).
Proof.
  intros Hurl Hu. unfold onConnection. rewrite Hurl. unfold runDb. simpl.
  by apply (getUser_updateUserOnlineStatus (db s) userId true).
Qed.

Lemma getUser_onClose url s userId u :
  urlUserId url = Some userId → getUser userId (db s) = (db s, inr (Some u)) →
  getUser userId (db (onClose url s))
  = (db (onClose url s), inr (Some (set_presence false (now (db s)) u))).
Proof.
  intros Hurl Hu. unfold onClose. rewrite Hurl. unfold runDb. simpl.
  by apply (getUser_updateUserOnlineStatus (db s) userId false).
Qed.

Lemma broadcast_skips_unregistered frame s h :
  distinctSockets s → (∀ userId, connections s !! userId ≠ Some h) →
  sockets (broadcast frame s) !! h = sockets s !! h.
Proof.
  intros Hnd Hh. destruct (broadcast_delivered frame s Hnd) as (_ & _ & Hskip & Hnone).
  destruct (sockets s !! h) as [ws|] eqn:Hs; [apply Hskip; auto | by apply Hnone].
Qed.

(** X10. The connections map holds one socket per user.  When a user
    connects a second time, the new socket takes the place of the first,
    which from then on receives no broadcast.  When the first connection
    then closes, its close handler removes the registration of the
    second one and marks the user offline, and the second socket, still
    open, receives no broadcast either. *)
Theorem second_connection_replaces_first (s : Server) (ws1 ws2 : nat)
    (url : option string) (userId : string) (u : User.t) (frame : Envelope) :
  urlUserId url = Some userId →
  getUser userId (db s) = (db s, inr (Some u)) →
  distinctSockets s →
  (∀ other, connections s !! other ≠ Some ws1) →
  (∀ other, connections s !! other ≠ Some ws2) →
  ws1 ≠ ws2 →
  let s2 := onConnection ws2 url (onConnection ws1 url s) in
  let s3 := onClose url s2 in
  connections s2 !! userId = Some ws2
  ∧ sockets (broadcast frame s2) !! ws1 = sockets s !! ws1
  ∧ connections s3 !! userId = None
  ∧ (∃ u3, getUser userId (db s3) = (db s3, inr (Some u3))
           ∧ User.isOnline u3 = Some false)
  ∧ sockets (broadcast frame s3) !! ws2 = sockets s !! ws2.
Proof.
  intros Hurl Hu Hnd H1 H2 Hne s2 s3.
  assert (Hc1 : connections (onConnection ws1 url s) = <[userId := ws1]> (connections s))
    by (unfold onConnection; by rewrite Hurl).
  assert (Hc2 : connections s2 = <[userId := ws2]> (<[userId := ws1]> (connections s)))
    by (unfold s2, onConnection at 1; by rewrite Hurl, <- Hc1).
  assert (Hc3 : connections s3 = delete userId (connections s2))
    by (unfold s3, onClose; by rewrite Hurl).
  assert (Hs2 : sockets s2 = sockets s)
    by (unfold s2, onConnection; by rewrite Hurl).
  assert (Hs3 : sockets s3 = sockets s)
    by (unfold s3, onClose; by rewrite Hurl).
  assert (Hnd1 : distinctSockets (onConnection ws1 url s))
    by by apply distinctSockets_onConnection.
  assert (Hnd2 : distinctSockets s2).
  { apply distinctSockets_onConnection; [done|]. intros other. rewrite Hc1.
    rewrite lookup_insert_Some. naive_solver. }
  assert (Hnd3 : distinctSockets s3) by by apply distinctSockets_onClose.
  split; [by rewrite Hc2, lookup_insert_eq|].
  split.
  { rewrite broadcast_skips_unregistered; [by rewrite Hs2 | done |].
    intros other. rewrite Hc2, !lookup_insert_Some. naive_solver. }
  split; [by rewrite Hc3, lookup_delete_eq|].
  split.
  { eexists. split.
    - apply getUser_onClose; [done|]. apply getUser_onConnection; [done|].
      by apply getUser_onConnection.
    - done. }
  rewrite broadcast_skips_unregistered; [by rewrite Hs3 | done |].
  intros other. rewrite Hc3, Hc2, lookup_delete_Some, !lookup_insert_Some.
  naive_solver.
Qed.

Lemma second_connection_replaces_first_witness :
  let s2 := onConnection 2 (Some "/ws?userId=u1")
              (onConnection 1 (Some "/ws?userId=u1") serverOpen) in
  let s3 := onClose (Some "/ws?userId=u1") s2 in
  let frame := {| type := "message_deleted"; data := MessageIdData "m1" |} in
  connections s2 !! "u1" = Some 2%nat
  ∧ sockets (broadcast frame s2) !! 1%nat = sockets serverOpen !! 1%nat
  ∧ connections s3 !! "u1" = None
  ∧ (∃ u3, getUser "u1" (db s3) = (db s3, inr (Some u3))
           ∧ User.isOnline u3 = Some false)
  ∧ sockets (broadcast frame s3) !! 2%nat = sockets serverOpen !! 2%nat.
Proof.
  apply (second_connection_replaces_first serverOpen 1 2 (Some "/ws?userId=u1") "u1"
           (sampleUser "u1" "alice")); try compute_done; try reflexivity.
  - intros other. unfold serverOpen. simpl. by rewrite lookup_empty.
  - intros other. unfold serverOpen. simpl. by rewrite lookup_empty.
Defined.

(** *** GET /api/users/search *)

Lemma searchUsers_eq query excludeUserId d :
  searchUsers query excludeUserId d =
    (d, inr (take 20
               (filter (λ u, (ilike (User.username u) ("%" ++ query ++ "%")
                              ∨ ilike (User.email u) ("%" ++ query ++ "%"))
                             ∧ User.id u ≠ excludeUserId) (users d)))).
Proof. reflexivity. Qed.


Lemma like_allPercent eqc q s : allPercent q → like eqc (q ++ "%") s = true.
Proof.
  revert s. induction q as [|c q IH]; intros s Hq; [apply like_percent_end|].
  destruct Hq as [-> Hq]. change (String "%" q ++ "%") with (String "%" (q ++ "%")).
  rewrite like_percent, IH; done.
Qed.

(** X12. The query is not escaped before it becomes a pattern: a query
    made only of [%] characters matches every user.  The search then
    returns users other than the requester, none of them more often than
    it is stored: 20 of them when there are more than 20, and all of
    them otherwise. *)
Theorem searchUsers_percent_lists_everyone (d : Db) (query excludeUserId : string) :
  allPercent query →
  ∃ found,
    searchUsers query excludeUserId d = (d, inr found)
    ∧ found ⊆+ filter (λ u, User.id u ≠ excludeUserId) (users d)
    ∧ length found
      = (20 `min` length (filter (λ u, User.id u ≠ excludeUserId) (users d)))%nat
    ∧ ((length (filter (λ u, User.id u ≠ excludeUserId) (users d)) ≤ 20)%nat →
       found ≡ₚ filter (λ u, User.id u ≠ excludeUserId) (users d)).
Proof.
  intros Hq. rewrite searchUsers_eq.
  assert (Hall : filter (λ u, (ilike (User.username u) ("%" ++ query ++ "%")
                               ∨ ilike (User.email u) ("%" ++ query ++ "%"))
                              ∧ User.id u ≠ excludeUserId) (users d)
                 = filter (λ u, User.id u ≠ excludeUserId) (users d)).
  { apply list_filter_iff. intros u. unfold ilike.
    change ("%" ++ query ++ "%") with (String "%" (query ++ "%")).
    rewrite !like_percent, !like_allPercent by done. simpl. tauto. }
  rewrite Hall. eexists. split; [reflexivity|]. split; [|split].
  - apply sublist_submseteq, sublist_take.
  - apply length_take.
  - intros Hlen. by rewrite take_ge.
Qed.

Lemma searchUsers_percent_lists_everyone_witness :
  ∃ found,
    searchUsers "%%" "u1" db0 = (db0, inr found)
    ∧ found ⊆+ filter (λ u, User.id u ≠ "u1") (users db0)
    ∧ length found = (20 `min` length (filter (λ u, User.id u ≠ "u1") (users db0)))%nat
    ∧ ((length (filter (λ u, User.id u ≠ "u1") (users db0)) ≤ 20)%nat →
       found ≡ₚ filter (λ u, User.id u ≠ "u1") (users db0)).
Proof. apply (searchUsers_percent_lists_everyone db0 "%%" "u1"). by repeat split. Defined.

(** *** createUser and the three lookups *)

Lemma head_filter_snoc {A} (P : A → Prop) `{!∀ x, Decision (P x)} (l : list A) (x : A) :
  (∀ y, y ∈ l → ¬ P y) → P x → head (filter P (l ++ [x])%list) = Some x.
Proof.
  intros Hl Hx. induction l as [|y l IH]; simpl.
  - by rewrite filter_cons_True.
  - rewrite filter_cons_False by (apply Hl; left).
    apply IH. intros z Hz. apply Hl. by right.
Qed.

Lemma head_filter_snoc_other {A} (P : A → Prop) `{!∀ x, Decision (P x)} (l : list A) (x : A) :
  ¬ P x → head (filter P (l ++ [x])%list) = head (filter P l).
Proof.
  intros Hx. rewrite filter_app, (filter_cons_False P x) by done.
  by rewrite filter_nil, app_nil_r.
Qed.

(** X13. A user that [createUser] has returned is found again under its
    id, its username and its email; it starts offline with no last-seen
    time; and every lookup of another username answers as before. *)
Theorem registered_user_is_found (d d' : Db) (insertUser : InsertUser) (u : User.t) :
  createUser insertUser d = (d', inr u) →
  getUser (User.id u) d' = (d', inr (Some u))
  ∧ getUserByUsername (iu_username insertUser) d' = (d', inr (Some u))
  ∧ getUserByEmail (iu_email insertUser) d' = (d', inr (Some u))
  ∧ User.isOnline u = Some false ∧ User.lastSeen u = None
  ∧ ∀ username, username ≠ iu_username insertUser →
      (getUserByUsername username d').2 = (getUserByUsername username d).2.
Proof.
  unfold createUser. qsimpl. case_decide as Hdup; [done|].
  intros Heq. simplify_eq. unfold getUser, getUserByUsername, getUserByEmail. qsimpl.
  assert (∀ (key : User.t → string) k, k ∉ key <$> users d →
            ∀ y, y ∈ users d → key y ≠ k) as Hnew.
  { intros key k Hk y Hy Heq. apply Hk, list_elem_of_fmap. eauto. }
  repeat split.
  - f_equal. f_equal. apply (head_filter_snoc (λ u, User.id u = rng d (drawn d))); [|done].
    apply (Hnew User.id). tauto.
  - f_equal. f_equal.
    apply (head_filter_snoc (λ u, User.username u = iu_username insertUser)); [|done].
    apply (Hnew User.username). tauto.
  - f_equal. f_equal.
    apply (head_filter_snoc (λ u, User.email u = iu_email insertUser)); [|done].
    apply (Hnew User.email). tauto.
  - intros username Hne. f_equal.
    apply (head_filter_snoc_other (λ u, User.username u = username)). simpl. congruence.
Qed.

Lemma registered_user_is_found_witness :
  ∃ d' u,
    createUser carol db0 = (d', inr u)
    ∧ getUser (User.id u) d' = (d', inr (Some u))
    ∧ getUserByUsername "carol" d' = (d', inr (Some u))
    ∧ getUserByEmail "carol@example.org" d' = (d', inr (Some u))
    ∧ User.isOnline u = Some false ∧ User.lastSeen u = None
    ∧ ∀ username, username ≠ "carol" →
        (getUserByUsername username d').2 = (getUserByUsername username db0).2.
Proof.
  eexists _, _. split; [vm_compute; reflexivity|].
  apply (registered_user_is_found db0 _ carol). vm_compute. reflexivity.
Defined.

(** X14. Registering a username or an email that a stored user already
    has throws a unique violation and changes no table. *)
Theorem createUser_rejects_taken_name_or_email (d : Db) (insertUser : InsertUser)
    (v : User.t) :
  v ∈ users d →
  User.username v = iu_username insertUser ∨ User.email v = iu_email insertUser →
  ∃ d', createUser insertUser d = (d', inl UniqueViolation) ∧ sameTables d d'.
Proof.
  intros Hv Hsame. unfold createUser. qsimpl. rewrite decide_True.
  - eexists. split; [reflexivity|]. by repeat split.
  - right. destruct Hsame as [<-|<-]; [left|right]; apply list_elem_of_fmap; eauto.
Qed.

Lemma createUser_rejects_taken_name_or_email_witness :
  ∃ d', createUser {| iu_username := "newcomer"; iu_email := "bob@example.org";
                      iu_password := "hash"; iu_avatar := None |} db0
        = (d', inl UniqueViolation) ∧ sameTables db0 d'.
Proof.
  apply (createUser_rejects_taken_name_or_email db0 _ (sampleUser "u2" "bob")).
  - compute_done.
  - by right.
Defined.

(** *** getUserConversations *)

Lemma elem_of_newSet (l : list string) x : x ∈ newSet l ↔ x ∈ l.
Proof.
  unfold newSet. induction l as [|y l IH] using rev_ind; [done|].
  rewrite foldl_app. simpl. case_decide as Hy.
  - rewrite IH, elem_of_app, list_elem_of_singleton. split; [auto|].
    intros [?| ->]; [done|]. by apply IH.
  - rewrite !elem_of_app, IH. done.
Qed.

Lemma newSet_nil (l : list string) : newSet l = [] → l = [].
Proof.
  intros Hnil. destruct l as [|x l]; [done|].
  assert (x ∈ newSet (x :: l)) as Hx by (apply elem_of_newSet; left).
  rewrite Hnil in Hx. by apply elem_of_nil in Hx.
Qed.

Lemma map_get_None {V} k (m : JsMap V) : map_get k m = None ↔ k ∉ m.*1.
Proof.
  induction m as [|[k' v] m IH]; simpl.
  - split; [intros _ ?%elem_of_nil | ]; done.
  - case_decide as Hk; [subst|].
    + split; [done|]. intros []. left.
    + rewrite IH, not_elem_of_cons. naive_solver.
Qed.

Lemma map_set_new {V} k (v : V) (m : JsMap V) :
  k ∉ m.*1 → map_set k v m = (m ++ [(k, v)])%list.
Proof.
  induction m as [|[k' v'] m IH]; simpl; [done|].
  rewrite not_elem_of_cons. intros [Hne Hk]. rewrite decide_False by done.
  by rewrite IH.
Qed.

Lemma map_get_set_fmap {V} k (f : V → V) (m : JsMap V) v :
  NoDup m.*1 → map_get k m = Some v →
  map_set k (f v) m = (λ e, if decide (e.1 = k) then (e.1, f e.2) else e) <$> m.
Proof.
  induction m as [|[k' v'] m IH]; simpl; [done|].
  rewrite NoDup_cons. intros [Hk' Hnd]. case_decide as Hk.
  - intros [= ->]. subst k'. f_equal. symmetry.
    rewrite <- (list_fmap_id m) at 2. apply list_fmap_ext. intros i [k2 v2] Hi. simpl.
    rewrite decide_False; [done|]. intros ->. apply Hk'.
    apply list_elem_of_fmap. exists (k, v2). split; [done|]. by eapply list_elem_of_lookup_2.
  - intros Hget. f_equal. by apply IH.
Qed.

Lemma getUserConversations_eq inArrayEmptyThrows userId d :
  getUserConversations inArrayEmptyThrows userId d =
    let conversationIds :=
      newSet ((λ uc, Conversation.id uc.1.2) <$> userConversationRows d userId) in
    if bool_decide (conversationIds = []) && inArrayEmptyThrows then None
    else Some (withLastMessage (foldl remember ∅ (lastMessageRows d conversationIds))
               <$> (foldl pushMember (foldl firstSeen [] (userConversationRows d userId))
                      (filter (λ r, ConversationMember.conversationId r.1 ∈ conversationIds)
                         (membersWithUser d))).*2).
Proof. reflexivity. Qed.

Lemma firstSeen_inv (ucs : list (ConversationMember.t * Conversation.t * User.t)) :
  let m := foldl firstSeen [] ucs in
  NoDup m.*1
  ∧ (∀ e, e ∈ m → ∃ uc, uc ∈ ucs ∧ e = (Conversation.id uc.1.2, initialView uc.1.2))
  ∧ (∀ uc, uc ∈ ucs → Conversation.id uc.1.2 ∈ m.*1).
Proof.
  induction ucs as [|x ucs IH] using rev_ind.
  - simpl. split; [constructor|]. split; [by intros ? ?%elem_of_nil|by intros ? ?%elem_of_nil].
  - simpl in *. rewrite foldl_app. simpl. destruct IH as (Hnd & Hfrom & Hall).
    generalize dependent (foldl firstSeen [] ucs). intros m Hnd Hfrom Hall.
    unfold firstSeen, map_has. case_bool_decide as Hx.
    + split; [done|]. split.
      * intros e He. destruct (Hfrom e He) as (uc & Huc & ->). exists uc.
        split; [|done]. apply elem_of_app. by left.
      * intros uc [Huc| ->%list_elem_of_singleton]%elem_of_app; [by apply Hall | done].
    + rewrite map_set_new by done. rewrite fmap_app. simpl. split; [|split].
      * apply NoDup_app. split; [done|]. split; [|apply NoDup_singleton].
        intros k Hk ->%list_elem_of_singleton. done.
      * intros e [He| ->%list_elem_of_singleton]%elem_of_app.
        -- destruct (Hfrom e He) as (uc & Huc & ->). exists uc.
           split; [|done]. apply elem_of_app. by left.
        -- exists x. split; [|done]. apply elem_of_app. right. apply list_elem_of_singleton. done.
      * intros uc [Huc| ->%list_elem_of_singleton]%elem_of_app; apply elem_of_app.
        -- left. by apply Hall.
        -- right. by apply list_elem_of_singleton.
Qed.

Lemma addMembers_keys rows (m : JsMap ConversationView) : (addMembers rows <$> m).*1 = m.*1.
Proof. rewrite <- list_fmap_compose. by apply list_fmap_ext. Qed.

Lemma foldl_pushMember rows (m : JsMap ConversationView) :
  NoDup m.*1 → foldl pushMember m rows = addMembers rows <$> m.
Proof.
  revert m. induction rows as [|r rows IH]; intros m Hnd; simpl.
  - rewrite <- (list_fmap_id m) at 1. apply list_fmap_ext. intros i [k [c ms lm n]] _.
    unfold addMembers. simpl. by rewrite filter_nil, app_nil_r.
  - unfold pushMember at 2.
    destruct (map_get (ConversationMember.conversationId r.1) m) as [conv|] eqn:Hget.
    + rewrite (map_get_set_fmap _
                 (λ conv, {| conversation := conversation conv;
                             members := (members conv ++ [r])%list;
                             lastMessage := lastMessage conv;
                             unreadCount := unreadCount conv |}) m conv Hnd Hget).
      rewrite IH.
      * rewrite <- list_fmap_compose. apply list_fmap_ext. intros i [k v] _. simpl.
        unfold addMembers. simpl. case_decide as Hk; simpl.
        -- rewrite filter_cons_True by done. by rewrite <- app_assoc.
        -- rewrite filter_cons_False by done. done.
      * rewrite <- list_fmap_compose.
        rewrite (list_fmap_ext _ fst m); [done|]. intros i [k v] _. simpl.
        by case_decide.
    + rewrite IH by done. apply list_fmap_ext. intros i [k v] Hi. unfold addMembers. simpl.
      rewrite filter_cons_False; [done|]. intros Heq.
      apply map_get_None in Hget. apply Hget. rewrite Heq.
      apply list_elem_of_fmap. exists (k, v). split; [done|]. by eapply list_elem_of_lookup_2.
Qed.

Lemma foldl_remember rows (acc : gmap string (Message.t * User.t)) k :
  foldl remember acc rows !! k
  = match acc !! k with
    | Some r => Some r
    | None => head (filter (λ r, Message.conversationId r.1 = k) rows)
    end.
Proof.
  revert acc. induction rows as [|r rows IH]; intros acc; simpl.
  - by destruct (acc !! k).
  - rewrite IH. unfold remember. case_decide as Hin.
    + destruct (acc !! k) eqn:Hk; [done|]. rewrite filter_cons_False; [done|].
      simpl. intros Heq. rewrite Heq, Hk in Hin. by destruct Hin.
    + destruct (decide (Message.conversationId r.1 = k)) as [Heq|Hne].
      * subst k. rewrite lookup_insert_eq. rewrite filter_cons_True by done.
        apply eq_None_not_Some in Hin. by rewrite Hin.
      * rewrite lookup_insert_ne by done. rewrite filter_cons_False by done. done.
Qed.

Lemma elem_of_userConversationRows d userId m c u :
  (m, c, u) ∈ userConversationRows d userId ↔
  m ∈ conversationMembers d ∧ c ∈ conversations d ∧ u ∈ users d
  ∧ ConversationMember.conversationId m = Conversation.id c
  ∧ ConversationMember.userId m = User.id u
  ∧ ConversationMember.userId m = userId.
Proof.
  unfold userConversationRows.
  rewrite list_elem_of_filter, elem_of_innerJoin, elem_of_innerJoin. simpl. tauto.
Qed.

Lemma getUserConversations_inv inArrayEmptyThrows userId d l :
  getUserConversations inArrayEmptyThrows userId d = Some l →
  let ucs := userConversationRows d userId in
  let conversationIds := newSet ((λ uc, Conversation.id uc.1.2) <$> ucs) in
  NoDup ((λ v, Conversation.id (conversation v)) <$> l)
  ∧ (∀ v, v ∈ l →
       ∃ uc, uc ∈ ucs ∧ conversation v = uc.1.2
             ∧ Conversation.id uc.1.2 ∈ conversationIds
             ∧ members v
               = filter (λ r, ConversationMember.conversationId r.1 = Conversation.id uc.1.2)
                   (membersWithUser d)
             ∧ lastMessage v
               = head (filter (λ r, Message.conversationId r.1 = Conversation.id uc.1.2)
                         (lastMessageRows d conversationIds))
             ∧ unreadCount v = 0)
  ∧ (∀ uc, uc ∈ ucs →
       Conversation.id uc.1.2 ∈ (λ v, Conversation.id (conversation v)) <$> l).
Proof.
  rewrite getUserConversations_eq. intros Hsome ucs conversationIds.
  cbv zeta in Hsome. fold ucs in Hsome. fold conversationIds in Hsome.
  destruct (bool_decide (conversationIds = []) && inArrayEmptyThrows); [done|].
  destruct (firstSeen_inv ucs) as (Hnd & Hfrom & Hall).
  rewrite foldl_pushMember in Hsome by done. injection Hsome as <-.
  set (rows := filter (λ r, ConversationMember.conversationId r.1 ∈ conversationIds)
                 (membersWithUser d)).
  set (lm := foldl remember ∅ (lastMessageRows d conversationIds)).
  assert (Hkeys : (λ v, Conversation.id (conversation v))
                    <$> (withLastMessage lm <$> (addMembers rows <$> foldl firstSeen [] ucs).*2)
                  = (foldl firstSeen [] ucs).*1).
  { rewrite <- !list_fmap_compose. apply list_fmap_ext. intros i e Hi.
    apply list_elem_of_lookup_2, Hfrom in Hi as (uc & _ & ->). done. }
  split; [by rewrite Hkeys|]. split.
  - intros v Hv. apply list_elem_of_fmap in Hv as (w & -> & Hw).
    apply list_elem_of_fmap in Hw as (e' & -> & He').
    apply list_elem_of_fmap in He' as (e & -> & He).
    destruct (Hfrom e He) as (uc & Huc & ->). exists uc.
    assert (Hid : Conversation.id uc.1.2 ∈ conversationIds).
    { apply elem_of_newSet, list_elem_of_fmap. eauto. }
    repeat split; try done.
    + simpl. unfold rows. rewrite list_filter_filter. apply list_filter_iff.
      intros r. split; [tauto|]. intros Heq. split; [done|]. by rewrite Heq.
    + simpl. unfold lm. by rewrite foldl_remember, lookup_empty.
  - intros uc Huc. rewrite Hkeys. by apply Hall.
Qed.

Lemma getUserConversations_None inArrayEmptyThrows userId d :
  getUserConversations inArrayEmptyThrows userId d = None →
  inArrayEmptyThrows = true ∧ userConversationRows d userId = [].
Proof.
  rewrite getUserConversations_eq. cbv zeta. case_bool_decide as Hnil; [|done].
  destruct inArrayEmptyThrows; [|done]. intros _. split; [done|].
  apply newSet_nil in Hnil. by apply fmap_nil_inv in Hnil.
Qed.

(** X15. With the constraints of the schema in force, the conversation
    list of a user holds exactly the conversations the user has a
    membership row in, each one once (also when the membership is stored
    twice), and every unread count is 0.  The call fails only for a user
    with no membership at all, and only where the query builder rejects
    an empty id list. *)
Theorem conversation_list_is_memberships (inArrayEmptyThrows : bool) (d : Db)
    (userId : string) :
  integrity d →
  match getUserConversations inArrayEmptyThrows userId d with
  | Some l =>
      NoDup ((λ v, Conversation.id (conversation v)) <$> l)
      ∧ (∀ c, c ∈ conversation <$> l ↔ c ∈ conversations d ∧ isMember d (Conversation.id c) userId)
      ∧ ∀ v, v ∈ l → unreadCount v = 0
  | None => inArrayEmptyThrows = true ∧ ∀ c, ¬ isMember d c userId
  end.
Proof.
  intros ((_ & Hc & _) & _ & (_ & Rm & _)).
  assert (Hrow : ∀ c, isMember d c userId →
            ∃ uc, uc ∈ userConversationRows d userId ∧ Conversation.id uc.1.2 = c).
  { intros c (m & Hm & Hcid & Huid)%isMember_iff.
    rewrite Forall_forall in Rm. destruct (Rm m Hm) as [Hconv Huser].
    apply list_elem_of_fmap in Hconv as (c' & Hc' & Hin').
    apply list_elem_of_fmap in Huser as (u & Hu & Hinu).
    exists (m, c', u). split; [|simpl; congruence].
    apply elem_of_userConversationRows. by repeat split. }
  destruct (getUserConversations inArrayEmptyThrows userId d) as [l|] eqn:Hget.
  - destruct (getUserConversations_inv _ _ _ _ Hget) as (Hnd & Hfrom & Hall).
    split; [done|]. split.
    + intros c. split.
      * intros (v & -> & Hv)%list_elem_of_fmap.
        destruct (Hfrom v Hv) as ([[m c] u] & Huc & -> & _). simpl.
        apply elem_of_userConversationRows in Huc as (Hm & Hin & _ & Hcid & _ & Huid).
        split; [done|]. apply isMember_iff. eauto.
      * intros [Hin Hmem]. destruct (Hrow _ Hmem) as (uc & Huc & Hid).
        apply Hall, list_elem_of_fmap in Huc as (v & Hv & Hvin).
        apply list_elem_of_fmap. exists v. split; [|done].
        destruct (Hfrom v Hvin) as ([[m' c'] u'] & Huc' & Hconv & _). simpl in Hconv.
        apply elem_of_userConversationRows in Huc' as (_ & Hin' & _). subst c'.
        apply (primary_key Conversation.id (conversations d)); [done..|]. congruence.
    + intros v Hv. by destruct (Hfrom v Hv) as (uc & _ & _ & _ & _ & _ & ?).
  - apply getUserConversations_None in Hget as [-> Hnil]. split; [done|].
    intros c Hmem. destruct (Hrow _ Hmem) as (uc & Huc & _).
    rewrite Hnil in Huc. by apply elem_of_nil in Huc.
Qed.

Lemma head_filter_sorted {A} (R : relation A) `{!Total R} (P : A → Prop)
    `{!∀ x, Decision (P x)} (l : list A) :
  StronglySorted R l →
  match head (filter P l) with
  | Some x => x ∈ l ∧ P x ∧ ∀ y, y ∈ l → P y → R x y
  | None => ∀ y, y ∈ l → ¬ P y
  end.
Proof.
  induction l as [|a l IH]; intros Hs.
  - simpl. by intros y ?%elem_of_nil.
  - apply StronglySorted_cons in Hs as [Ha Hs]. specialize (IH Hs).
    destruct (decide (P a)) as [Hp|Hp].
    + rewrite filter_cons_True by done. simpl. split; [left|]. split; [done|].
      intros y [->|Hy]%elem_of_cons _; [by destruct (total R a a)|].
      rewrite Forall_forall in Ha. by apply Ha.
    + rewrite filter_cons_False by done. destruct (head (filter P l)) as [x|].
      * destruct IH as (Hx & Hpx & Hmax). split; [by right|]. split; [done|].
        intros y [->|Hy]%elem_of_cons Hpy; [done | by apply Hmax].
      * intros y [->|Hy]%elem_of_cons; [done | by apply IH].
Qed.

Lemma ts_le_antisym a b : ts_le a b → ts_le b a → a = b.
Proof. destruct a, b; simpl; try done. intros. f_equal. lia. Qed.

Lemma lastMessageRows_newest d conversationIds k :
  k ∈ conversationIds →
  match head (filter (λ r, Message.conversationId r.1 = k)
                (lastMessageRows d conversationIds)) with
  | Some r =>
      r ∈ visibleRows d k
      ∧ ∀ r', r' ∈ visibleRows d k →
              ts_le (Message.createdAt r'.1) (Message.createdAt r.1)
  | None => visibleRows d k = []
  end.
Proof.
  intros Hk.
  assert (Hin : ∀ r, r ∈ lastMessageRows d conversationIds ∧ Message.conversationId r.1 = k
                     ↔ r ∈ visibleRows d k).
  { intros r. unfold lastMessageRows, visibleRows.
    rewrite merge_sort_Permutation, !list_elem_of_filter. split; [tauto|].
    intros [[Hc Hd] Hr]. repeat split; try done. by rewrite Hc. }
  pose proof (head_filter_sorted newer_first (λ r, Message.conversationId r.1 = k)
                (lastMessageRows d conversationIds)) as Hhead.
  destruct (head _) as [r|].
  - destruct Hhead as (Hr & Hc & Hmax);
      [unfold lastMessageRows; apply StronglySorted_merge_sort; apply _|].
    split; [by apply Hin|]. intros r' Hr'. apply Hin in Hr' as [Hr' Hc'].
    by apply (Hmax r').
  - destruct (visibleRows d k) as [|r rows] eqn:Hv; [done|].
    assert (r ∈ r :: rows) as Hr by left.
    apply Hin in Hr as [Hr Hc]. exfalso. eapply Hhead; [|exact Hr|exact Hc].
    unfold lastMessageRows. apply StronglySorted_merge_sort; apply _.
Qed.

(** X16. The members of a listed conversation are its membership rows,
    each joined with its user: every membership row of the conversation
    whose user exists is among them (a membership stored twice is listed
    for both of its rows), none is listed more than once when the tables
    hold no row twice, and the requesting user is among them. *)
Theorem conversation_list_members (inArrayEmptyThrows : bool) (d : Db) (userId : string)
    (l : list ConversationView) (v : ConversationView) :
  getUserConversations inArrayEmptyThrows userId d = Some l →
  v ∈ l →
  (∀ m u, (m, u) ∈ members v ↔
          m ∈ conversationMembers d ∧ u ∈ users d
          ∧ ConversationMember.userId m = User.id u
          ∧ ConversationMember.conversationId m = Conversation.id (conversation v))
  ∧ (NoDup (conversationMembers d) → NoDup (users d) → NoDup (members v))
  ∧ ∃ r, r ∈ members v ∧ User.id r.2 = userId.
Proof.
  intros Hget Hv. destruct (getUserConversations_inv _ _ _ _ Hget) as (_ & Hfrom & _).
  destruct (Hfrom v Hv) as ([[m c] u] & Huc & Hconv & _ & Hmem & _). simpl in *.
  rewrite Hconv, Hmem.
  assert (Hin : ∀ m' u', (m', u') ∈ filter
                  (λ r, ConversationMember.conversationId r.1 = Conversation.id c)
                  (membersWithUser d) ↔
                m' ∈ conversationMembers d ∧ u' ∈ users d
                ∧ ConversationMember.userId m' = User.id u'
                ∧ ConversationMember.conversationId m' = Conversation.id c).
  { intros m' u'. rewrite list_elem_of_filter. unfold membersWithUser.
    rewrite elem_of_innerJoin. simpl. tauto. }
  split; [done|]. split.
  - intros Hm Hu. apply NoDup_filter. by apply NoDup_innerJoin.
  - exists (m, u).
    apply elem_of_userConversationRows in Huc as (Hm & _ & Hu & Hcid & Huid & Hme).
    split; [by apply Hin | simpl; congruence].
Qed.

(** X17. With the foreign keys in force, the last message of a listed
    conversation is a stored message of that conversation that is not
    deleted, joined with its sender, and no stored message of the
    conversation that is not deleted is newer; it is absent exactly when
    the conversation has no stored message that is not deleted. *)
Theorem conversation_list_last_message (inArrayEmptyThrows : bool) (d : Db)
    (userId : string) (l : list ConversationView) (v : ConversationView) :
  refsOk d →
  getUserConversations inArrayEmptyThrows userId d = Some l →
  v ∈ l →
  match lastMessage v with
  | Some (m, u) =>
      m ∈ messages d
      ∧ Message.conversationId m = Conversation.id (conversation v)
      ∧ Message.isDeleted m = Some false
      ∧ u ∈ users d ∧ User.id u = Message.senderId m
      ∧ ∀ m', m' ∈ messages d →
              Message.conversationId m' = Conversation.id (conversation v) →
              Message.isDeleted m' = Some false →
              ts_le (Message.createdAt m') (Message.createdAt m)
  | None =>
      ∀ m, m ∈ messages d →
           Message.conversationId m = Conversation.id (conversation v) →
           Message.isDeleted m ≠ Some false
  end.
Proof.
  intros (_ & _ & Rg & _) Hget Hv.
  destruct (getUserConversations_inv _ _ _ _ Hget) as (_ & Hfrom & _).
  destruct (Hfrom v Hv) as (uc & _ & Hconv & Hid & _ & Hlast & _).
  pose proof (lastMessageRows_newest d _ _ Hid) as Hnew.
  rewrite <- Hlast, <- Hconv in Hnew. clear Hlast Hfrom.
  set (k := Conversation.id (conversation v)) in *.
  assert (Hrow : ∀ m, m ∈ messages d → Message.conversationId m = k →
                      Message.isDeleted m = Some false →
                      ∃ u, (m, u) ∈ visibleRows d k).
  { intros m Hm Hc Hd. rewrite Forall_forall in Rg. destruct (Rg m Hm) as [_ Hs].
    apply list_elem_of_fmap in Hs as (u & Hs & Hu). exists u.
    apply elem_of_visibleRows. by repeat split. }
  destruct (lastMessage v) as [[m u]|].
  - destruct Hnew as [Hr Hnewest].
    apply elem_of_visibleRows in Hr as (Hm & Hu & Hs & Hc & Hd).
    repeat split; try done.
    intros m' Hm' Hc' Hd'. destruct (Hrow m' Hm' Hc' Hd') as [u' Hr'].
    apply (Hnewest (m', u') Hr').
  - intros m Hm Hc Hd. destruct (Hrow m Hm Hc Hd) as [u Hr].
    rewrite Hnew in Hr. by apply elem_of_nil in Hr.
Qed.

(** X18. When the messages of a conversation that are not deleted carry
    distinct timestamps, the last message in the conversation list is the
    message that the history returns for limit 1 and offset 0. *)
Theorem conversation_list_last_message_is_history_head (inArrayEmptyThrows : bool)
    (d : Db) (userId : string) (l : list ConversationView) (v : ConversationView) :
  getUserConversations inArrayEmptyThrows userId d = Some l →
  v ∈ l →
  (∀ r r', r ∈ visibleRows d (Conversation.id (conversation v)) →
           r' ∈ visibleRows d (Conversation.id (conversation v)) →
           Message.createdAt r.1 = Message.createdAt r'.1 → r = r') →
  ∃ history,
    getConversationMessages (Conversation.id (conversation v)) (Some 1%nat) (Some 0%nat) d
    = (d, inr history)
    ∧ rowOf <$> history = option_list (lastMessage v).
Proof.
  intros Hget Hv Hdistinct.
  destruct (getUserConversations_inv _ _ _ _ Hget) as (_ & Hfrom & _).
  destruct (Hfrom v Hv) as (uc & _ & Hconv & Hid & _ & Hlast & _).
  pose proof (lastMessageRows_newest d _ _ Hid) as Hnew.
  rewrite <- Hlast, <- Hconv in Hnew. clear Hlast Hfrom.
  set (k := Conversation.id (conversation v)) in *.
  rewrite getConversationMessages_eq. eexists. split; [reflexivity|]. simpl.
  rewrite fmap_reverse, <- list_fmap_compose.
  rewrite (list_fmap_ext _ id (page d k 1 0)) by (by intros i [m u] _).
  rewrite list_fmap_id. unfold page, limit_offset. rewrite drop_0.
  assert (Hhead : StronglySorted newer_first (merge_sort newer_first (visibleRows d k)))
    by (apply StronglySorted_merge_sort; apply _).
  destruct (merge_sort newer_first (visibleRows d k)) as [|r2 rows] eqn:Hsorted.
  - assert (visibleRows d k = []) as Hnil.
    { apply Permutation_nil_r. rewrite <- Hsorted. by rewrite merge_sort_Permutation. }
    simpl. destruct (lastMessage v) as [r|]; [|done].
    destruct Hnew as [Hr _]. rewrite Hnil in Hr. by apply elem_of_nil in Hr.
  - apply StronglySorted_cons in Hhead as [Hmax _]. rewrite Forall_forall in Hmax.
    assert (Hperm : ∀ r, r ∈ r2 :: rows ↔ r ∈ visibleRows d k).
    { intros r. by rewrite <- Hsorted, merge_sort_Permutation. }
    simpl. rewrite take_0. change (reverse [r2]) with [r2].
    destruct (lastMessage v) as [r|].
    + destruct Hnew as [Hr Hnewest]. simpl. f_equal.
      apply Hdistinct; [apply Hperm; left | done |].
      apply ts_le_antisym.
      * apply Hnewest. apply Hperm. left.
      * apply Hperm, elem_of_cons in Hr as [->|Hr]; [|by apply Hmax].
        by destruct (total newer_first r2 r2).
    + assert (r2 ∈ visibleRows d k) as Hr2 by (apply Hperm; left).
      rewrite Hnew in Hr2. by apply elem_of_nil in Hr2.
Qed.

Lemma conversation_list_is_memberships_witness :
  match getUserConversations true "u1" dbReplies with
  | Some l =>
      NoDup ((λ v, Conversation.id (conversation v)) <$> l)
      ∧ (∀ c, c ∈ conversation <$> l
              ↔ c ∈ conversations dbReplies ∧ isMember dbReplies (Conversation.id c) "u1")
      ∧ ∀ v, v ∈ l → unreadCount v = 0
  | None => true = true ∧ ∀ c, ¬ isMember dbReplies c "u1"
  end.
Proof. apply (conversation_list_is_memberships true dbReplies "u1"). compute_done. Defined.

Lemma conversation_list_members_witness :
  (∀ m u, (m, u) ∈ members sampleConversationView ↔
          m ∈ conversationMembers dbReplies ∧ u ∈ users dbReplies
          ∧ ConversationMember.userId m = User.id u
          ∧ ConversationMember.conversationId m
            = Conversation.id (conversation sampleConversationView))
  ∧ (NoDup (conversationMembers dbReplies) → NoDup (users dbReplies) →
     NoDup (members sampleConversationView))
  ∧ ∃ r, r ∈ members sampleConversationView ∧ User.id r.2 = "u1".
Proof.
  apply (conversation_list_members true dbReplies "u1" [sampleConversationView]);
    [reflexivity | left].
Defined.

Lemma conversation_list_last_message_witness :
  match lastMessage sampleConversationView with
  | Some (m, u) =>
      m ∈ messages dbReplies
      ∧ Message.conversationId m = Conversation.id (conversation sampleConversationView)
      ∧ Message.isDeleted m = Some false
      ∧ u ∈ users dbReplies ∧ User.id u = Message.senderId m
      ∧ ∀ m', m' ∈ messages dbReplies →
              Message.conversationId m'
              = Conversation.id (conversation sampleConversationView) →
              Message.isDeleted m' = Some false →
              ts_le (Message.createdAt m') (Message.createdAt m)
  | None =>
      ∀ m, m ∈ messages dbReplies →
           Message.conversationId m
           = Conversation.id (conversation sampleConversationView) →
           Message.isDeleted m ≠ Some false
  end.
Proof.
  apply (conversation_list_last_message true dbReplies "u1" [sampleConversationView]);
    [compute_done | reflexivity | left].
Defined.

Lemma conversation_list_last_message_is_history_head_witness :
  ∃ history,
    getConversationMessages (Conversation.id (conversation sampleConversationView))
      (Some 1%nat) (Some 0%nat) dbReplies
    = (dbReplies, inr history)
    ∧ rowOf <$> history = option_list (lastMessage sampleConversationView).
Proof.
  apply (conversation_list_last_message_is_history_head true dbReplies "u1"
           [sampleConversationView]); [reflexivity | left |].
  intros r r' Hr Hr' Heq.
  apply list_elem_of_In in Hr, Hr'. vm_compute in Hr, Hr'.
  destruct Hr as [<-|[<-|[]]], Hr' as [<-|[<-|[]]]; done.
Defined.

(** *** GET /api/conversations/:id/messages *)



(** *** The socket URL *)

Lemma substring_0_length (s : string) : substring 0 (String.length s) s = s.
Proof. induction s as [|c s IH]; [done|]. simpl. by rewrite IH. Qed.

Lemma index_absent (sep s : string) :
  (∀ n, substring n (String.length sep) s ≠ sep) → index 0 sep s = None.
Proof.
  intros Habsent. destruct (index 0 sep s) as [m|] eqn:Hindex; [|done].
  apply index_correct1 in Hindex. by apply Habsent in Hindex.
Qed.

Lemma index_wsPath userId : index 0 "userId=" (wsPath userId) = Some 4%nat.
Proof. unfold wsPath. by destruct userId. Qed.

Lemma substring_wsPath userId :
  substring 11 (String.length (wsPath userId) - 11) (wsPath userId) = userId.
Proof.
  unfold wsPath. change (String.length ("/ws?userId=" ++ userId) - 11)%nat
    with (String.length userId - 0)%nat.
  rewrite Nat.sub_0_r. apply substring_0_length.
Qed.

Lemma split1_wsPath userId :
  (∀ n, substring n 7 userId ≠ "userId=") → split1 "userId=" (wsPath userId) = Some userId.
Proof.
  intros Habsent. unfold split1. rewrite index_wsPath.
  change (4 + String.length "userId=")%nat with 11%nat. cbv zeta.
  rewrite substring_wsPath. by rewrite (index_absent "userId=" userId Habsent).
Qed.

(** X20. The request path that the client writes, [/ws?userId=] followed
    by the user id, is read back by the server: for a user id that is
    not empty and does not contain the text [userId=], the connection
    handler registers the socket under exactly that id, and the close
    handler removes it again.  With an empty id nothing is registered. *)
Theorem socket_url_registers_user (s : Server) (ws : nat) (userId : string) :
  userId ≠ "" →
  (∀ n, substring n 7 userId ≠ "userId=") →
  urlUserId (Some (wsPath userId)) = Some userId
  ∧ connections (onConnection ws (Some (wsPath userId)) s) !! userId = Some ws
  ∧ connections (onClose (Some (wsPath userId))
                   (onConnection ws (Some (wsPath userId)) s)) !! userId = None
  ∧ onConnection ws (Some (wsPath "")) s = s.
Proof.
  intros Hne Habsent.
  assert (Hurl : urlUserId (Some (wsPath userId)) = Some userId).
  { unfold urlUserId. simpl. rewrite (split1_wsPath _ Habsent). simpl.
    by rewrite decide_False. }
  split; [done|]. unfold onConnection, onClose. rewrite Hurl.
  split; [|split].
  - unfold runDb. simpl. by rewrite lookup_insert_eq.
  - unfold runDb. simpl. by rewrite lookup_delete_eq.
  - done.
Qed.

Lemma socket_url_registers_user_witness :
  urlUserId (Some (wsPath "u1")) = Some "u1"
  ∧ connections (onConnection 1 (Some (wsPath "u1")) serverOpen) !! "u1" = Some 1%nat
  ∧ connections (onClose (Some (wsPath "u1"))
                   (onConnection 1 (Some (wsPath "u1")) serverOpen)) !! "u1" = None
  ∧ onConnection 1 (Some (wsPath "")) serverOpen = serverOpen.
Proof.
  apply (socket_url_registers_user serverOpen 1 "u1"); [done|].
  intros [|[|[|n]]]; simpl; discriminate.
Defined.

(** *** The new-group dialog *)

Lemma toggleMember_spec userId prev :
  NoDup prev →
  NoDup (toggleMember userId prev)
  ∧ ∀ x, x ∈ toggleMember userId prev ↔ (if decide (x = userId) then x ∉ prev else x ∈ prev).
Proof.
  intros Hnd. unfold toggleMember. case_decide as Hin.
  - split; [by apply NoDup_filter|]. intros x. rewrite list_elem_of_filter.
    case_decide as Hx; [subst|]; naive_solver.
  - split.
    + apply NoDup_app. split; [done|]. split; [|apply NoDup_singleton].
      by intros x Hx ->%list_elem_of_singleton.
    + intros x. rewrite elem_of_app, list_elem_of_singleton.
      case_decide as Hx; [subst|]; naive_solver.
Qed.

(** X21. However the check boxes are clicked, the selection of the
    new-group dialog holds no id twice, and it holds exactly the ids that
    were clicked an odd number of times. *)
Theorem selection_is_odd_clicks (clicks : list string) :
  NoDup (selectionAfter clicks)
  ∧ ∀ userId, userId ∈ selectionAfter clicks
              ↔ Nat.odd (length (filter (λ x, x = userId) clicks)) = true.
Proof.
  unfold selectionAfter. induction clicks as [|x clicks [Hnd IH]] using rev_ind.
  - split; [constructor|]. intros userId. simpl. split; [by intros ?%elem_of_nil|done].
  - rewrite foldl_app. simpl.
    destruct (toggleMember_spec x _ Hnd) as [Hnd' Hin]. split; [done|].
    intros userId. rewrite Hin, filter_app, length_app. case_decide as Hx.
    + subst x. rewrite filter_cons_True, filter_nil by done. simpl.
      rewrite Nat.add_1_r, Nat.odd_succ, <- Nat.negb_odd, IH.
      destruct (Nat.odd _); simpl; naive_solver.
    + rewrite filter_cons_False, filter_nil by done. simpl. by rewrite Nat.add_0_r, IH.
Qed.

(** X22. A group sent from the new-group dialog, when the requester and
    every selected id are users and the next generated ids are new: the
    route answers 201 with a group that carries the name as it was typed
    (not trimmed) and the requester as creator; the memberships added are
    the requester followed by the selection, in order; and no event is
    sent to any socket. *)
Theorem group_from_dialog (trim : string → string) (s : Server)
    (me groupName description : string) (selectedMembers : list string)
    (reqBody : CreateConversationBody) :
  handleCreateGroup trim groupName description selectedMembers = Some reqBody →
  me ∈ User.id <$> users (db s) →
  Forall (λ u, u ∈ User.id <$> users (db s)) selectedMembers →
  fresh (db s) (2 + length selectedMembers) →
  ∃ s' c rows,
    postConversations (Some me) reqBody s
    = (s', {| status := 201; body := ConversationBody c |})
    ∧ trim groupName ≠ "" ∧ selectedMembers ≠ []
    ∧ Conversation.name c = Some groupName
    ∧ Conversation.isGroup c = Some true
    ∧ Conversation.createdBy c = Some me
    ∧ conversations (db s') = (conversations (db s) ++ [c])%list
    ∧ conversationMembers (db s') = (conversationMembers (db s) ++ rows)%list
    ∧ ConversationMember.userId <$> rows = me :: selectedMembers
    ∧ Forall (λ m, ConversationMember.conversationId m = Conversation.id c) rows
    ∧ sockets s' = sockets s ∧ connections s' = connections s.
Proof.
  unfold handleCreateGroup. case_decide as Hguard; [done|]. intros [= <-] Hme Hsel Hf.
  assert (trim groupName ≠ "" ∧ length selectedMembers ≠ 0%nat) as [Hname Hlen] by tauto.
  set (ic := {| ic_name := Some groupName; ic_description := Some description;
                ic_isGroup := Some (Some true); ic_avatar := None;
                ic_createdBy := Some me |}).
  set (c := conversationRow (db s) ic).
  set (d1 := afterCreateConversation (db s) ic).
  set (d2 := afterAddMember d1 (Conversation.id c) me).
  assert (Hf1 : fresh d1 (1 + length selectedMembers))
    by by apply fresh_afterCreateConversation.
  assert (Hf2 : fresh d2 (length selectedMembers + 0)).
  { apply fresh_afterAddMember. by rewrite Nat.add_0_r. }
  assert (Hc : Conversation.id c ∈ Conversation.id <$> conversations d1).
  { simpl. rewrite fmap_app, elem_of_app. right. simpl. left. }
  destruct (forOf_addConversationMember d2 (Conversation.id c) selectedMembers 0)
    as (d3 & rows & Hrun & Hf3 & Husers & Hconvs & Hmem & Huids & Hcids); [done..|].
  exists {| db := d3; connections := connections s; sockets := sockets s |},
    c, (memberRow d1 (Conversation.id c) me :: rows).
  split.
  { unfold postConversations, requireAuth, tryCatch, runDb. simpl. fold ic.
    unfold qbind. rewrite (createConversation_fresh (db s) ic (1 + length selectedMembers)) by done.
    fold c d1. rewrite (addConversationMember_fresh d1 _ _ (length selectedMembers)) by done.
    fold d2.
    change (λ memberId : string, addConversationMember (Conversation.id c) memberId)
      with (addConversationMember (Conversation.id c)).
    by rewrite Hrun. }
  split; [done|]. split; [by destruct selectedMembers|].
  split; [done|]. split; [done|]. split; [done|].
  split; [simpl; by rewrite Hconvs|].
  split; [simpl; rewrite Hmem; simpl; by rewrite <- (assoc_L app)|].
  split; [by rewrite fmap_cons, Huids|]. split; [by constructor|]. done.
Qed.

Lemma group_from_dialog_witness :
  ∃ s' c rows,
    postConversations (Some "u1")
      {| cb_name := Some "Team"; cb_description := Some "";
         cb_isGroup := Some (Some true); cb_avatar := None;
         cb_memberIds := Some ["u2"; "u3"] |} server0
    = (s', {| status := 201; body := ConversationBody c |})
    ∧ "Team" ≠ "" ∧ ["u2"; "u3"] ≠ []
    ∧ Conversation.name c = Some "Team"
    ∧ Conversation.isGroup c = Some true
    ∧ Conversation.createdBy c = Some "u1"
    ∧ conversations (db s') = (conversations (db server0) ++ [c])%list
    ∧ conversationMembers (db s') = (conversationMembers (db server0) ++ rows)%list
    ∧ ConversationMember.userId <$> rows = ["u1"; "u2"; "u3"]
    ∧ Forall (λ m, ConversationMember.conversationId m = Conversation.id c) rows
    ∧ sockets s' = sockets server0 ∧ connections s' = connections server0.
Proof.
  apply (group_from_dialog (λ s, s) server0 "u1" "Team" "" ["u2"; "u3"]);
    [reflexivity | compute_done..].
Defined.

(** *** The sidebar *)

Lemma elem_of_membersWithUser d m u :
  (m, u) ∈ membersWithUser d ↔
  m ∈ conversationMembers d ∧ u ∈ users d ∧ ConversationMember.userId m = User.id u.
Proof. unfold membersWithUser. by rewrite elem_of_innerJoin. Qed.

Lemma head_filter_Some {A} (P : A → Prop) `{!∀ x, Decision (P x)} (l : list A) x :
  x ∈ l → P x → ∃ y, head (filter P l) = Some y ∧ y ∈ l ∧ P y.
Proof.
  intros Hx Hp. destruct (filter P l) as [|y l'] eqn:Hf.
  - assert (x ∈ filter P l) as Hin by (by apply list_elem_of_filter).
    rewrite Hf in Hin. by apply elem_of_nil in Hin.
  - exists y. split; [done|].
    assert (y ∈ filter P l) as Hy by (rewrite Hf; left).
    apply list_elem_of_filter in Hy. tauto.
Qed.

(** X23. In the sidebar of a user, a listed conversation that is not a
    group and has that user and one other user as its members is shown
    under the other user's username (Unknown User if that name is
    empty); a conversation whose only member is the user, such as a
    direct conversation with oneself, is shown as Unknown User. *)
Theorem direct_conversation_is_named_after_peer (inArrayEmptyThrows : bool) (d : Db)
    (me peer : User.t) (l : list ConversationView) (v : ConversationView) :
  getUserConversations inArrayEmptyThrows (User.id me) d = Some l →
  v ∈ l →
  Conversation.isGroup (conversation v) ≠ Some true →
  NoDup (User.id <$> users d) →
  peer ∈ users d →
  (∀ u, isMember d (Conversation.id (conversation v)) u → u = User.id me ∨ u = User.id peer) →
  getConversationName (Some me) v
  = if decide (User.id peer ≠ User.id me
               ∧ isMember d (Conversation.id (conversation v)) (User.id peer)
               ∧ User.username peer ≠ "")
    then User.username peer else "Unknown User".
Proof.
  intros Hget Hv Hgroup Hnd Hpeer Honly.
  destruct (getUserConversations_inv _ _ _ _ Hget) as (_ & Hfrom & _).
  destruct (Hfrom v Hv) as (uc & _ & Hconv & _ & Hmem & _). rewrite <- Hconv in Hmem.
  unfold getConversationName. rewrite decide_False by done. cbv zeta. rewrite Hmem.
  set (k := Conversation.id (conversation v)) in *. simpl.
  set (rows := filter (λ r, ConversationMember.conversationId r.1 = k) (membersWithUser d)).
  assert (Hrows : ∀ m u, (m, u) ∈ rows →
            u ∈ users d ∧ isMember d k (User.id u)).
  { intros m u [Hk (Hm & Hu & Hid)%elem_of_membersWithUser]%list_elem_of_filter.
    split; [done|]. apply isMember_iff. exists m. by rewrite <- Hid. }
  destruct (decide (User.id peer ≠ User.id me ∧ isMember d k (User.id peer)))
    as [[Hne Hin]|Hno].
  - apply isMember_iff in Hin as (m & Hm & Hk & Hu).
    destruct (head_filter_Some (λ r, Some (User.id r.2) ≠ Some (User.id me)) rows (m, peer))
      as ([m' u'] & -> & Hin' & Hother).
    { apply list_elem_of_filter. split; [done|]. by apply elem_of_membersWithUser. }
    { simpl. congruence. }
    destruct (Hrows _ _ Hin') as [Hu' Hmem'].
    assert (u' = peer) as ->.
    { apply (primary_key User.id (users d)); [done..|].
      destruct (Honly _ Hmem') as [Heq|Heq]; [|done]. simpl in Hother. congruence. }
    simpl. destruct (decide (User.username peer = "")) as [Hempty|Hname].
    + by rewrite decide_False by tauto.
    + by rewrite decide_True.
  - rewrite decide_False by tauto.
    destruct (filter _ rows) as [|[m' u'] rest] eqn:Hf; [done|]. exfalso.
    assert ((m', u') ∈ filter (λ r, Some (User.id r.2) ≠ Some (User.id me)) rows) as Hin'
      by (rewrite Hf; left).
    apply list_elem_of_filter in Hin' as [Hother Hin']. simpl in Hother.
    destruct (Hrows _ _ Hin') as [Hu' Hmem'].
    destruct (Honly _ Hmem') as [Heq|Heq]; [congruence|].
    apply Hno. rewrite <- Heq. split; [congruence | done].
Qed.

Lemma direct_conversation_is_named_after_peer_witness :
  getConversationName (Some (sampleUser "u1" "alice")) sampleConversationView
  = if decide (User.id (sampleUser "u2" "bob") ≠ User.id (sampleUser "u1" "alice")
               ∧ isMember dbReplies (Conversation.id (conversation sampleConversationView))
                   (User.id (sampleUser "u2" "bob"))
               ∧ User.username (sampleUser "u2" "bob") ≠ "")
    then User.username (sampleUser "u2" "bob") else "Unknown User".
Proof.
  apply (direct_conversation_is_named_after_peer true dbReplies (sampleUser "u1" "alice")
           (sampleUser "u2" "bob") [sampleConversationView]);
    [reflexivity | left | done | compute_done | compute_done |].
  intros u (m & Hm & _ & <-)%isMember_iff.
  apply list_elem_of_In in Hm. simpl in Hm. destruct Hm as [<-|[<-|[]]]; auto.
Defined.

(** *** Sockets are not authenticated *)




(** *** createConversation and getConversation *)

(** X25. A conversation that [createConversation] has returned is found
    again under its id, and its creator, when one is given, is a user.
    Creating it makes nobody a member, not even the creator: with the
    foreign keys in force the new conversation has no membership row
    until one is added. *)
Theorem created_conversation_has_no_member (d d' : Db)
    (insertConversation : InsertConversation) (c : Conversation.t) :
  refsOk d →
  createConversation insertConversation d = (d', inr c) →
  getConversation (Conversation.id c) d' = (d', inr (Some c))
  ∧ references (User.id <$> users d) (Conversation.createdBy c)
  ∧ conversationMembers d' = conversationMembers d
  ∧ ∀ userId, ¬ isMember d' (Conversation.id c) userId.
Proof.
  intros (_ & Rm & _) Hrun. unfold createConversation in Hrun. qsimpl.
  case_decide as Hid; [done|]. case_decide as Hfk; [|done]. simplify_eq. simpl.
  split; [|split; [done|split; [done|]]].
  - unfold getConversation. qsimpl. f_equal. f_equal.
    apply (head_filter_snoc (λ c, Conversation.id c = rng d (drawn d))); [|done].
    intros y Hy Heq. apply Hid. rewrite <- Heq. by apply list_elem_of_fmap_2.
  - intros userId (m & Hm & Hc & _)%isMember_iff. simpl in Hm.
    rewrite Forall_forall in Rm. destruct (Rm m Hm) as [Hconv _]. by rewrite Hc in Hconv.
Qed.

Lemma created_conversation_has_no_member_witness :
  ∃ d' c,
    createConversation (directInsert "u1") db0 = (d', inr c)
    ∧ getConversation (Conversation.id c) d' = (d', inr (Some c))
    ∧ references (User.id <$> users db0) (Conversation.createdBy c)
    ∧ conversationMembers d' = conversationMembers db0
    ∧ ∀ userId, ¬ isMember d' (Conversation.id c) userId.
Proof.
  eexists _, _. split; [vm_compute; reflexivity|].
  apply (created_conversation_has_no_member db0 _ (directInsert "u1"));
    [compute_done | vm_compute; reflexivity].
Defined.

(** *** The life of a call *)

(** X26. A call that is initiated for an existing conversation by an
    existing user is stored as started at the clock, not ended, and
    pending unless the request names a status.  When any authenticated
    user, the caller or not, later patches it to ended, the stored call
    is that row with status ended and the end time at the clock of the
    patch, and every other call is as it was. *)
Theorem call_is_started_then_ended (s : Server) (caller other : string)
    (reqBody : CreateCallBody) (t : Z) :
  clb_conversationId reqBody ∈ Conversation.id <$> conversations (db s) →
  caller ∈ User.id <$> users (db s) →
  fresh (db s) 1 →
  ∃ s1 c,
    postCalls (Some caller) reqBody s = (s1, {| status := 201; body := CallBody c |})
    ∧ Call.callerId c = caller
    ∧ Call.status c = column_default (Some "pending") (clb_status reqBody)
    ∧ Call.startedAt c = Some (now (db s)) ∧ Call.endedAt c = None
    ∧ calls (db s1) = (calls (db s) ++ [c])%list
    ∧ calls (db (patchCall (Some other) (Call.id c) (Some "ended")
                   {| db := set_now t (db s1); connections := connections s1;
                      sockets := sockets s1 |}).1)
      = (calls (db s)
         ++ [Call.mk (Call.id c) (clb_conversationId reqBody) caller (clb_type reqBody)
               (Some "ended") (Some (now (db s))) (Some t)])%list.
Proof.
  intros Hc Hu Hf. apply fresh_next in Hf. rewrite elem_of_primaryKeys in Hf.
  assert (Hid : rng (db s) (drawn (db s)) ∉ Call.id <$> calls (db s)) by tauto.
  set (c := Call.mk (rng (db s) (drawn (db s))) (clb_conversationId reqBody) caller
              (clb_type reqBody) (column_default (Some "pending") (clb_status reqBody))
              (Some (now (db s))) None).
  exists (broadcast {| type := "call_initiated"; data := CallData c |}
            {| db := set_calls (λ l, (l ++ [c])%list) (afterDraw (db s));
               connections := connections s; sockets := sockets s |}), c.
  split.
  { unfold postCalls, requireAuth, tryCatch, runDb, createCall. qsimpl.
    rewrite decide_False by done. by rewrite decide_True by done. }
  do 5 (split; [done|]).
  rewrite patchCall_eq. simpl. rewrite fmap_app. simpl. rewrite decide_True by done.
  f_equal. rewrite <- (list_fmap_id (calls (db s))) at 2. apply list_fmap_ext.
  intros i c' Hi. rewrite decide_False; [done|]. intros Heq. apply Hid.
  rewrite <- Heq.
  apply list_elem_of_fmap. exists c'. split; [done|]. by eapply list_elem_of_lookup_2.
Qed.

Lemma call_is_started_then_ended_witness :
  ∃ s1 c,
    postCalls (Some "u1")
      {| clb_conversationId := "c1"; clb_type := "video"; clb_status := None |} serverVisitor
    = (s1, {| status := 201; body := CallBody c |})
    ∧ Call.callerId c = "u1"
    ∧ Call.status c = column_default (Some "pending") None
    ∧ Call.startedAt c = Some (now (db serverVisitor)) ∧ Call.endedAt c = None
    ∧ calls (db s1) = (calls (db serverVisitor) ++ [c])%list
    ∧ calls (db (patchCall (Some "u2") (Call.id c) (Some "ended")
                   {| db := set_now 1700000060000 (db s1); connections := connections s1;
                      sockets := sockets s1 |}).1)
      = (calls (db serverVisitor)
         ++ [Call.mk (Call.id c) "c1" "u1" "video" (Some "ended")
               (Some (now (db serverVisitor))) (Some 1700000060000)])%list.
Proof.
  apply (call_is_started_then_ended serverVisitor "u1" "u2"
           {| clb_conversationId := "c1"; clb_type := "video"; clb_status := None |}
           1700000060000); compute_done.
Defined.
